(** * PtyManager: session registry of the extraterm main process

    A shallow embedding of [PtyManager] (main process, TypeScript) and of the
    two window-side helpers in [src/main_process/TerminalWindow.ts], followed
    by the properties of the session lifecycle.

    Modelling conventions
    - a JavaScript [number] that only ever holds an integer (session ids,
      window ids, sizes) is a [Z]; the id counter starts at 0 and is only
      incremented, and integer arithmetic on doubles is exact below 2^53;
    - [Map<number, PtyTuple>] is an association list in insertion order
      (the order [keys()] iterates in), with [get], [set], [delete];
    - the [EnvironmentMap] object is a [gmap string string];
    - objects owned by the host ([Pty] handles, [WebContents]) are references
      (a number naming the object); what the host answers to a query is given
      by a [Host] record whose answers may depend on every call made so far;
    - every call that leaves the manager (spawn, destroy, write, resize,
      permittedDataSize, send, logger) is appended to a trace; such a call
      returns before anything else happens: a [Pty] reports data and exit
      later, from the event loop, never from inside [destroy];
    - a callback is the data of its closure (the variables it captured); the
      callbacks registered on a [Pty] are kept per handle, oldest first, and a
      [Pty] that fires an event calls them in that order;
    - a method is a function [World -> Outcome A * World]: it returns or
      throws, and the state it has written before throwing stays written. *)

From Stdlib Require Import ZArith List String Bool Lia Sorted.
From stdpp Require Import base list gmap strings.

Open Scope string_scope.
Open Scope list_scope.
Open Scope Z_scope.

(** ** JavaScript values *)

Inductive JsError :=
| Error (message : string)
| TypeError (message : string).

(** [if (n)] on a number: [0] is falsy. *)
Definition truthy_number (n : Z) : bool := negb (n =? 0).

(** [if (s)] on a string that may be [null]/[undefined]: those and [""] are falsy. *)
Definition truthy_string (s : option string) : bool :=
  match s with
  | Some v => negb (String.eqb v "")
  | None => false
  end.

(** ** [Map<number, V>] in insertion order *)

Module JsMap.
Abbreviation t V := (list (Z * V)).

Section JsMap.
Context {V : Type}.

Definition empty : t V := [].

Fixpoint get (m : t V) (k : Z) : option V :=
  match m with
  | [] => None
  | (k', v) :: m' => if k' =? k then Some v else get m' k
  end.

(** [set] keeps the position of a key that is present and appends a new one. *)
Fixpoint set (m : t V) (k : Z) (v : V) : t V :=
  match m with
  | [] => [(k, v)]
  | (k', v') :: m' => if k' =? k then (k, v) :: m' else (k', v') :: set m' k v
  end.

Fixpoint delete (m : t V) (k : Z) : t V :=
  match m with
  | [] => []
  | (k', v') :: m' => if k' =? k then delete m' k else (k', v') :: delete m' k
  end.

Definition keys (m : t V) : list Z := map fst m.

(** A [Map] holds each key once. *)
Definition wf (m : t V) : Prop := NoDup (keys m).
End JsMap.
End JsMap.

(** ** Host objects *)

(** A [Pty] session handle and an Electron [WebContents], by reference. *)
Definition Pty := nat.
Definition WebContents := nat.

Definition EnvironmentMap := gmap string string.

Module PtyOptions.
Record t := {
  name : string;
  cols : Z;
  rows : Z;
  env : gmap string string;
  cwd : option string (* optional: [None] when the field is not set *)
}.
End PtyOptions.

Record BufferSizeChange := {
  totalBufferSize : Z;
  availableDelta : Z
}.

(** Envelopes the manager builds (WindowMessages). The constructor is the
    [type] field. *)
Inductive Message :=
| PTY_OUTPUT (id : Z) (data : string)
| PTY_CLOSE (id : Z)
| PTY_INPUT_BUFFER_SIZE_CHANGE (id : Z) (total delta : Z)
| PTY_CREATED (id : Z).

(** Requests the manager receives. *)
Module CreatePtyRequestMessage.
Record t := {
  command : string;
  args : list string;
  env : gmap string string;
  columns : Z;
  rows : Z;
  fromPtyId : option Z
}.
End CreatePtyRequestMessage.

Module PtyInput.
Record t := { id : Z; data : string }.
End PtyInput.

Module PtyOutputBufferSize.
Record t := { id : Z; size : Z }.
End PtyOutputBufferSize.

Module PtyResize.
Record t := { id : Z; columns : Z; rows : Z }.
End PtyResize.

Module PtyCloseRequest.
Record t := { id : Z }.
End PtyCloseRequest.

Inductive LogLevel := Debug | Warn.

(** Calls that leave the manager, in the order they are made. *)
Inductive Event :=
| EvSpawn (file : string) (args : list string) (options : PtyOptions.t)
          (result : JsError + Pty)
| EvDestroy (p : Pty)
| EvWrite (p : Pty) (data : string)
| EvResize (p : Pty) (columns rows : Z)
| EvPermittedDataSize (p : Pty) (size : Z)
| EvSend (sender : WebContents) (msg : Message)
| EvLog (level : LogLevel) (text : string).

(** What the host answers; [history] is the trace at the time of the call. *)
Record Host := {
  (** [PtyConnector.spawn]: a new handle, or the error it throws. *)
  host_spawn : list Event -> string -> list string -> PtyOptions.t -> JsError + Pty;
  (** [Pty.getCwd()]: [None] is [null]. *)
  host_getCwd : list Event -> Pty -> option string;
  (** [WebContents.isDestroyed()]. *)
  host_isDestroyed : list Event -> WebContents -> bool;
  (** [BrowserWindow.fromWebContents(sender)]: the window's [id], [None] when
      there is no such window ([null], so reading [.id] throws). *)
  host_windowId : list Event -> WebContents -> option Z
}.

(** ** The manager and its world *)

Record PtyTuple := {
  windowId : Z;
  ptyTerm : Pty;
  outputBufferSize : Z; (* The number of characters we are allowed to send. *)
  outputPaused : bool   (* True if the term's output is paused. *)
}.

(** A callback registered on a [Pty], with the variables its closure captured
    in [createPty]. *)
Inductive Listener :=
| OnData (sender : WebContents) (ptyId : Z)
| OnExit (sender : WebContents) (ptyId : Z) (ptyTerm : Pty)
| OnAvailableWriteBufferSizeChange (sender : WebContents) (ptyId : Z).

Record World := {
  ptyMap : JsMap.t PtyTuple;
  ptyCounter : Z;
  (** callbacks registered on each [Pty], oldest first *)
  listeners : list (Pty * Listener);
  trace : list Event
}.

(** [new PtyManager(config)]. *)
Definition initial : World :=
  {| ptyMap := JsMap.empty; ptyCounter := 0; listeners := []; trace := [] |}.

Inductive Outcome (A : Type) :=
| Returned (a : A)
| Thrown (e : JsError).
Arguments Returned {A} a.
Arguments Thrown {A} e.

Definition M (A : Type) : Type := World -> Outcome A * World.

Definition ret {A} (a : A) : M A := fun w => (Returned a, w).

Definition throw {A} (e : JsError) : M A := fun w => (Thrown e, w).

Definition bind {A B} (m : M A) (k : A -> M B) : M B :=
  fun w =>
    match m w with
    | (Returned a, w') => k a w'
    | (Thrown e, w') => (Thrown e, w')
    end.

Declare Scope js_scope.
Delimit Scope js_scope with js.
Notation "x <- m ;; k" := (bind m (fun x => k))
  (at level 100, m at next level, right associativity) : js_scope.
Notation "m ;; k" := (bind m (fun _ => k))
  (at level 100, right associativity) : js_scope.
Open Scope js_scope.

Definition add_events (evs : list Event) (w : World) : World :=
  {| ptyMap := ptyMap w; ptyCounter := ptyCounter w;
     listeners := listeners w; trace := trace w ++ evs |}.

Definition set_ptyMap (m : JsMap.t PtyTuple) (w : World) : World :=
  {| ptyMap := m; ptyCounter := ptyCounter w;
     listeners := listeners w; trace := trace w |}.

Definition emit (e : Event) : M unit :=
  fun w => (Returned tt, add_events [e] w).

Definition with_ptyMap (f : JsMap.t PtyTuple -> JsMap.t PtyTuple) : M unit :=
  fun w => (Returned tt, set_ptyMap (f (ptyMap w)) w).

Definition ptyMap_get (k : Z) : M (option PtyTuple) :=
  fun w => (Returned (JsMap.get (ptyMap w) k), w).

Definition ptyMap_set (k : Z) (v : PtyTuple) : M unit :=
  with_ptyMap (fun m => JsMap.set m k v).

Definition ptyMap_delete (k : Z) : M unit :=
  with_ptyMap (fun m => JsMap.delete m k).

Definition ptyMap_keys : M (list Z) :=
  fun w => (Returned (JsMap.keys (ptyMap w)), w).

(** [this.ptyCounter++; const ptyId = this.ptyCounter;] *)
Definition next_ptyCounter : M Z :=
  fun w => (Returned (ptyCounter w + 1),
            {| ptyMap := ptyMap w; ptyCounter := ptyCounter w + 1;
               listeners := listeners w; trace := trace w |}).

Definition add_listener (p : Pty) (l : Listener) : M unit :=
  fun w => (Returned tt,
            {| ptyMap := ptyMap w; ptyCounter := ptyCounter w;
               listeners := listeners w ++ [(p, l)]; trace := trace w |}).

(** [for (const x of xs) body(x)] *)
Fixpoint for_of {A} (xs : list A) (body : A -> M unit) : M unit :=
  match xs with
  | [] => ret tt
  | x :: xs' => body x ;; for_of xs' body
  end.

Definition logger_debug (text : string) : M unit := emit (EvLog Debug text).
Definition logger_warn (text : string) : M unit := emit (EvLog Warn text).

Definition send (sender : WebContents) (msg : Message) : M unit :=
  emit (EvSend sender msg).

Module PtyOps.
Definition destroy (p : Pty) : M unit := emit (EvDestroy p).
Definition write (p : Pty) (data : string) : M unit := emit (EvWrite p data).
Definition resize (p : Pty) (columns rows : Z) : M unit := emit (EvResize p columns rows).
Definition permittedDataSize (p : Pty) (size : Z) : M unit :=
  emit (EvPermittedDataSize p size).
Definition onData (p : Pty) (l : Listener) : M unit := add_listener p l.
Definition onExit (p : Pty) (l : Listener) : M unit := add_listener p l.
Definition onAvailableWriteBufferSizeChange (p : Pty) (l : Listener) : M unit :=
  add_listener p l.
End PtyOps.

(** What a [Pty] can tell its listeners. *)
Inductive PtyEvent :=
| DataEvent (data : string)
| ExitEvent
| AvailableWriteBufferSizeChangeEvent (bufferSizeChange : BufferSizeChange).

(** ** [PtyManager] *)

Module PtyManager.
Section WithHost.
Context (H : Host).

Definition getCwd (p : Pty) : M (option string) :=
  fun w => (Returned (host_getCwd H (trace w) p), w).

Definition isDestroyed (sender : WebContents) : M bool :=
  fun w => (Returned (host_isDestroyed H (trace w) sender), w).

(** [BrowserWindow.fromWebContents(sender).id] *)
Definition fromWebContents_id (sender : WebContents) : M Z :=
  fun w =>
    match host_windowId H (trace w) sender with
    | Some i => (Returned i, w)
    | None => (Thrown (TypeError "Cannot read property 'id' of null"), w)
    end.

(** [this.ptyConnector.spawn(file, args, ptyOptions)] *)
Definition spawn (file : string) (args : list string) (options : PtyOptions.t) : M Pty :=
  fun w =>
    let r := host_spawn H (trace w) file args options in
    let w' := add_events [EvSpawn file args options r] w in
    match r with
    | inr p => (Returned p, w')
    | inl e => (Thrown e, w')
    end.

(** The first part of [createPty], up to the call of [spawn]: the options
    handed to it. [fromPty.ptyTerm] is a handle, hence truthy. *)
Definition createPty_options (env : EnvironmentMap) (cols rows : Z)
    (fromPtyId : option Z) : M PtyOptions.t :=
  let ptyEnv := <["TERM" := "xterm"]> env in
  let ptyOptions :=
    {| PtyOptions.name := "xterm"; PtyOptions.cols := cols; PtyOptions.rows := rows;
       PtyOptions.env := ptyEnv; PtyOptions.cwd := None |} in
  match fromPtyId with
  | None => ret ptyOptions
  | Some fromPtyId =>
      if truthy_number fromPtyId then
        logger_debug "Got fromPtyId ..." ;;
        fromPty <- ptyMap_get fromPtyId ;;
        match fromPty with
        | None => ret ptyOptions
        | Some fromPty =>
            logger_debug "fromPty was found: " ;;
            cwd <- getCwd (ptyTerm fromPty) ;;
            logger_debug "fromPty CWD: " ;;
            if truthy_string cwd then
              logger_debug "CWD of fromPty is: " ;;
              ret {| PtyOptions.name := "xterm"; PtyOptions.cols := cols;
                     PtyOptions.rows := rows; PtyOptions.env := ptyEnv;
                     PtyOptions.cwd := cwd |}
            else ret ptyOptions
        end
      else ret ptyOptions
  end.

(** The rest of [createPty], from the call of [spawn] on. *)
Definition createPty_spawn (sender : WebContents) (file : string)
    (args : list string) (ptyOptions : PtyOptions.t) : M Z :=
  ptyTerm <- spawn file args ptyOptions ;;
  ptyId <- next_ptyCounter ;;
  windowId <- fromWebContents_id sender ;;
  let ptyTup := {| windowId := windowId; ptyTerm := ptyTerm;
                   outputBufferSize := 0; outputPaused := true |} in
  ptyMap_set ptyId ptyTup ;;
  PtyOps.onData ptyTerm (OnData sender ptyId) ;;
  PtyOps.onExit ptyTerm (OnExit sender ptyId ptyTerm) ;;
  PtyOps.onAvailableWriteBufferSizeChange ptyTerm
    (OnAvailableWriteBufferSizeChange sender ptyId) ;;
  ret ptyId.

Definition createPty (sender : WebContents) (file : string) (args : list string)
    (env : EnvironmentMap) (cols rows : Z) (fromPtyId : option Z) : M Z :=
  ptyOptions <- createPty_options env cols rows fromPtyId ;;
  createPty_spawn sender file args ptyOptions.

(** The three callbacks [createPty] registers. *)
Definition onData_callback (sender : WebContents) (ptyId : Z) (data : string) : M unit :=
  destroyed <- isDestroyed sender ;;
  if negb destroyed then send sender (PTY_OUTPUT ptyId data) else ret tt.

Definition onExit_callback (sender : WebContents) (ptyId : Z) (ptyTerm : Pty) : M unit :=
  logger_debug "pty process exited." ;;
  destroyed <- isDestroyed sender ;;
  (if negb destroyed then send sender (PTY_CLOSE ptyId) else ret tt) ;;
  PtyOps.destroy ptyTerm ;;
  ptyMap_delete ptyId.

Definition onAvailableWriteBufferSizeChange_callback (sender : WebContents)
    (ptyId : Z) (bufferSizeChange : BufferSizeChange) : M unit :=
  send sender (PTY_INPUT_BUFFER_SIZE_CHANGE ptyId
                 (totalBufferSize bufferSizeChange)
                 (availableDelta bufferSizeChange)).

Definition closePty (id : Z) : M unit :=
  ptyTerminalTuple <- ptyMap_get id ;;
  match ptyTerminalTuple with
  | None => ret tt
  | Some ptyTerminalTuple =>
      PtyOps.destroy (ptyTerm ptyTerminalTuple) ;;
      ptyMap_delete id
  end.

Definition cleanUpPtyWindow (windowId' : Z) : M unit :=
  keys <- ptyMap_keys ;;
  for_of keys (fun key =>
    tup <- ptyMap_get key ;;
    match tup with
    | None => throw (TypeError "Cannot read property 'windowId' of undefined")
    | Some tup =>
        if windowId tup =? windowId' then closePty key else ret tt
    end).

Definition handlePtyCreate (sender : WebContents)
    (msg : CreatePtyRequestMessage.t) : M Message :=
  id <- createPty sender
          (CreatePtyRequestMessage.command msg)
          (CreatePtyRequestMessage.args msg)
          (CreatePtyRequestMessage.env msg)
          (CreatePtyRequestMessage.columns msg)
          (CreatePtyRequestMessage.rows msg)
          (CreatePtyRequestMessage.fromPtyId msg) ;;
  ret (PTY_CREATED id).

Definition handlePtyInput (msg : PtyInput.t) : M unit :=
  ptyTerminalTuple <- ptyMap_get (PtyInput.id msg) ;;
  match ptyTerminalTuple with
  | None =>
      logger_warn
        "handlePtyInput() WARNING: Input arrived for a terminal which doesn't exist."
  | Some ptyTerminalTuple =>
      PtyOps.write (ptyTerm ptyTerminalTuple) (PtyInput.data msg)
  end.

Definition handlePtyOutputBufferSize (msg : PtyOutputBufferSize.t) : M unit :=
  ptyTerminalTuple <- ptyMap_get (PtyOutputBufferSize.id msg) ;;
  match ptyTerminalTuple with
  | None =>
      logger_warn
        "handlePtyOutputBufferSize() WARNING: Input arrived for a terminal which doesn't exist."
  | Some ptyTerminalTuple =>
      PtyOps.permittedDataSize (ptyTerm ptyTerminalTuple) (PtyOutputBufferSize.size msg)
  end.

Definition handlePtyResize (msg : PtyResize.t) : M unit :=
  ptyTerminalTuple <- ptyMap_get (PtyResize.id msg) ;;
  match ptyTerminalTuple with
  | None =>
      logger_warn
        "handlePtyResize() WARNING: Input arrived for a terminal which doesn't exist."
  | Some ptyTerminalTuple =>
      PtyOps.resize (ptyTerm ptyTerminalTuple) (PtyResize.columns msg) (PtyResize.rows msg)
  end.

Definition handlePtyCloseRequest (msg : PtyCloseRequest.t) : M unit :=
  ptyTerminalTuple <- ptyMap_get (PtyCloseRequest.id msg) ;;
  match ptyTerminalTuple with
  | None =>
      logger_warn
        "handlePtyCloseRequest() WARNING: Input arrived for a terminal which doesn't exist."
  | Some _ => closePty (PtyCloseRequest.id msg)
  end.

(** *** The host calling back *)

Definition call_listener (l : Listener) (ev : PtyEvent) : M unit :=
  match l, ev with
  | OnData sender ptyId, DataEvent data => onData_callback sender ptyId data
  | OnExit sender ptyId ptyTerm, ExitEvent => onExit_callback sender ptyId ptyTerm
  | OnAvailableWriteBufferSizeChange sender ptyId,
    AvailableWriteBufferSizeChangeEvent c =>
      onAvailableWriteBufferSizeChange_callback sender ptyId c
  | _, _ => ret tt
  end.

(** The callbacks registered on [p], oldest first. *)
Definition listeners_of (p : Pty) (ls : list (Pty * Listener)) : list Listener :=
  map snd (filter (fun pl => fst pl = p) ls).

(** [p] fires [ev]: each callback registered on [p] is called, oldest first. *)
Definition fire (p : Pty) (ev : PtyEvent) : M unit :=
  fun w => for_of (listeners_of p (listeners w)) (fun l => call_listener l ev) w.


(** *** Everything that can happen to a manager *)

Inductive Call :=
| CallCreatePty (sender : WebContents) (file : string) (args : list string)
                (env : EnvironmentMap) (cols rows : Z) (fromPtyId : option Z)
| CallHandlePtyCreate (sender : WebContents) (msg : CreatePtyRequestMessage.t)
| CallClosePty (id : Z)
| CallCleanUpPtyWindow (windowId : Z)
| CallHandlePtyInput (msg : PtyInput.t)
| CallHandlePtyOutputBufferSize (msg : PtyOutputBufferSize.t)
| CallHandlePtyResize (msg : PtyResize.t)
| CallHandlePtyCloseRequest (msg : PtyCloseRequest.t)
| CallFire (p : Pty) (ev : PtyEvent).

(** One call; the session id when the call created a session. *)
Definition run_call (c : Call) : M (option Z) :=
  match c with
  | CallCreatePty sender file args env cols rows fromPtyId =>
      id <- createPty sender file args env cols rows fromPtyId ;; ret (Some id)
  | CallHandlePtyCreate sender msg =>
      reply <- handlePtyCreate sender msg ;;
      ret (match reply with PTY_CREATED id => Some id | _ => None end)
  | CallClosePty id => closePty id ;; ret None
  | CallCleanUpPtyWindow windowId => cleanUpPtyWindow windowId ;; ret None
  | CallHandlePtyInput msg => handlePtyInput msg ;; ret None
  | CallHandlePtyOutputBufferSize msg => handlePtyOutputBufferSize msg ;; ret None
  | CallHandlePtyResize msg => handlePtyResize msg ;; ret None
  | CallHandlePtyCloseRequest msg => handlePtyCloseRequest msg ;; ret None
  | CallFire p ev => fire p ev ;; ret None
  end.

(** A sequence of calls, each on the state the one before left (also when
    it threw); the ids the successful creations returned, in order. *)
Fixpoint run_calls (cs : list Call) (w : World) : list Z * World :=
  match cs with
  | [] => ([], w)
  | c :: cs' =>
      let (r, w') := run_call c w in
      let (ids, w'') := run_calls cs' w' in
      (match r with Returned (Some id) => id :: ids | _ => ids end, w'')
  end.
End WithHost.
End PtyManager.

(** ** [TerminalWindow]: the window's own clean-up, on the [ptyMap] it imports *)

Module TerminalWindow.
Definition closePty (id : Z) : M unit :=
  ptyTerminalTuple <- ptyMap_get id ;;
  match ptyTerminalTuple with
  | None => ret tt
  | Some ptyTerminalTuple =>
      PtyOps.destroy (ptyTerm ptyTerminalTuple) ;;
      ptyMap_delete id
  end.

Definition cleanUpPtyWindow (windowId' : Z) : M unit :=
  keys <- ptyMap_keys ;;
  for_of keys (fun key =>
    tup <- ptyMap_get key ;;
    match tup with
    | None => throw (TypeError "Cannot read property 'windowId' of undefined")
    | Some tup =>
        if windowId tup =? windowId' then closePty key else ret tt
    end).

Definition handlePtyCloseRequest (msg : PtyCloseRequest.t) : M unit :=
  ptyTerminalTuple <- ptyMap_get (PtyCloseRequest.id msg) ;;
  match ptyTerminalTuple with
  | None =>
      logger_debug
        "handlePtyCloseRequest() WARNING: Input arrived for a terminal which doesn't exist."
  | Some _ => closePty (PtyCloseRequest.id msg)
  end.
End TerminalWindow.

(** ** Reading a trace *)

(** The events a call added: the trace only grows. *)
Definition new_events (w w' : World) : list Event :=
  drop (length (trace w)) (trace w').

Definition spawn_calls (evs : list Event) : list (string * list string * PtyOptions.t) :=
  omap (fun e => match e with
                 | EvSpawn file args options _ => Some (file, args, options)
                 | _ => None
                 end) evs.

Definition destroy_calls (evs : list Event) : list Pty :=
  omap (fun e => match e with EvDestroy p => Some p | _ => None end) evs.

Definition sent (evs : list Event) : list (WebContents * Message) :=
  omap (fun e => match e with EvSend s m => Some (s, m) | _ => None end) evs.

(** ** States of a manager *)

(** Every key of the map is an id the counter has handed out. *)
Definition ids_allocated (w : World) : Prop :=
  0 ≤ ptyCounter w ∧ Forall (fun k => 0 < k ≤ ptyCounter w) (JsMap.keys (ptyMap w)).

Definition inv (w : World) : Prop := JsMap.wf (ptyMap w) ∧ ids_allocated w.

(** The states a manager can be in: those some sequence of calls leads to
    from a new manager. *)
Definition reachable (H : Host) (w : World) : Prop :=
  ∃ cs, snd (PtyManager.run_calls H cs initial) = w.

(** [p] carries the three callbacks [createPty] registers for session [id] on
    behalf of [sender], and nothing else. *)
Definition wired (w : World) (p : Pty) (sender : WebContents) (id : Z) : Prop :=
  PtyManager.listeners_of p (listeners w) =
    [OnData sender id; OnExit sender id p; OnAvailableWriteBufferSizeChange sender id].

Definition owned_by (windowId' : Z) (kv : Z * PtyTuple) : Prop :=
  windowId (snd kv) = windowId'.

#[global] Instance owned_by_dec windowId' kv : Decision (owned_by windowId' kv).
Proof. unfold owned_by. apply _. Defined.

(** ** Hosts and states for the examples *)

(** A host whose connector hands out a new handle at each spawn (or fails
    every time), where every session reports the working directory [dir],
    every connection answers [destroyed] to [isDestroyed()], and connection
    [s] belongs to window [s]. *)
Definition example_host (fails : bool) (dir : option string) (destroyed : bool) : Host :=
  {| host_spawn := fun history _ _ _ =>
       if fails then inl (Error "spawn ENOENT")
       else inr (length (spawn_calls history));
     host_getCwd := fun _ _ => dir;
     host_isDestroyed := fun _ _ => destroyed;
     host_windowId := fun _ s => Some (Z.of_nat s) |}.

Definition good_host : Host := example_host false (Some "/home/user") false.
Definition closed_host : Host := example_host false None true.

(** Sessions 1 and 3 for window 7 and session 2 for window 8. *)
Definition three_sessions_calls : list PtyManager.Call :=
  [PtyManager.CallCreatePty 7%nat "/bin/sh" [] ∅ 80 24 None;
   PtyManager.CallCreatePty 8%nat "/bin/sh" [] ∅ 80 24 None;
   PtyManager.CallCreatePty 7%nat "/bin/sh" [] ∅ 80 24 (Some 1)].

Definition three_sessions : World :=
  snd (PtyManager.run_calls good_host three_sessions_calls initial).





(** One session, id 1 on handle 0, for a connection that is already
    destroyed. *)
Definition one_session_closed : World :=
  snd (PtyManager.createPty closed_host 7%nat "/bin/sh" [] ∅ 80 24 None initial).

(** Between [w] and [w'] the host was called with [evs], in that order, and
    nothing else changed. *)
Definition only_called (evs : list Event) (w w' : World) : Prop :=
  ptyMap w' = ptyMap w ∧ ptyCounter w' = ptyCounter w ∧
  listeners w' = listeners w ∧ trace w' = trace w ++ evs.


(** ** [WebIpc]: the channel bridge of the render process

    The bridge reads nothing of a message but its [type]; messages and their
    kinds are therefore any types with that one projection. A promise and a
    default handler are references; resolving a promise runs none of its
    continuations at once, while a default handler is code of the caller that
    runs inside the dispatch and may call the functions the module exports:
    [handler_calls] gives the calls it makes. *)

Module WebIpc.
Section Bridge.
Context {MessageType Message : Type} `{EqDecision MessageType}.
Context (type : Message → MessageType).

(** What the bridge does to the outside, in order. *)
Inductive IpcEvent :=
| Send (msg : Message)                      (* ipc.send(CHANNEL_NAME, msg) *)
| Resolve (promise : nat) (msg : Message)   (* tup.promiseResolve(msg) *)
| Handle (handler : nat) (msg : Message).   (* tup.handler(msg) *)

Record State := {
  (** [{promiseResolve, messageType}], oldest first; a promise is named by
      the number of promises made before it *)
  promiseQueue : list (nat * MessageType);
  (** [{messageType, handler}], oldest first *)
  defaultHandlers : list (MessageType * nat);
  promises : nat;
  log : list IpcEvent
}.

(** The module when it is loaded. *)
Definition start : State :=
  {| promiseQueue := []; defaultHandlers := []; promises := 0%nat; log := [] |}.

Definition add_log (e : IpcEvent) (s : State) : State :=
  {| promiseQueue := promiseQueue s; defaultHandlers := defaultHandlers s;
     promises := promises s; log := log s ++ [e] |}.

Definition registerDefaultHandler (t : MessageType) (handler : nat) (s : State) : State :=
  {| promiseQueue := promiseQueue s;
     defaultHandlers := defaultHandlers s ++ [(t, handler)];
     promises := promises s; log := log s |}.

(** [ipc.send(Messages.CHANNEL_NAME, msg)]: what [ptyInput], [ptyResize] and
    the other one-way functions do with the message they build. *)
Definition send (msg : Message) (s : State) : State := add_log (Send msg) s.

(** [request]: the promise it returns and the state it leaves. *)
Definition request (msg : Message) (replyType : MessageType) (s : State) : nat * State :=
  let s1 := send msg s in
  (promises s1,
   {| promiseQueue := promiseQueue s1 ++ [(promises s1, replyType)];
      defaultHandlers := defaultHandlers s1;
      promises := S (promises s1); log := log s1 |}).

(** A call of an exported function. *)
Inductive Call :=
| CallRequest (msg : Message) (replyType : MessageType)
| CallSend (msg : Message)
| CallRegisterDefaultHandler (t : MessageType) (handler : nat).

Definition run_exported (c : Call) (s : State) : State :=
  match c with
  | CallRequest msg replyType => snd (request msg replyType s)
  | CallSend msg => send msg s
  | CallRegisterDefaultHandler t handler => registerDefaultHandler t handler s
  end.

(** The calls a default handler makes when it is given [msg], after the
    events so far. *)
Context (handler_calls : list IpcEvent → nat → Message → list Call).

(** [tup.handler(msg)] *)
Definition call_handler (handler : nat) (msg : Message) (s : State) : State :=
  let s1 := add_log (Handle handler msg) s in
  foldl (fun s c => run_exported c s) s1 (handler_calls (log s1) handler msg).

Definition handleAsyncIpc (msg : Message) (s : State) : State :=
  let matchingPromises := filter (fun p => snd p = type msg) (promiseQueue s) in
  let nonMatchingPromises := filter (fun p => snd p ≠ type msg) (promiseQueue s) in
  let s1 := {| promiseQueue := nonMatchingPromises;
               defaultHandlers := defaultHandlers s;
               promises := promises s; log := log s |} in
  let s2 := foldl (fun s tup => add_log (Resolve (fst tup) msg) s) s1 matchingPromises in
  if decide (length matchingPromises = 0%nat) then
    (* Fall back on the default handlers. *)
    foldl (fun s tup => call_handler (snd tup) msg s) s2
      (filter (fun tup => fst tup = type msg) (defaultHandlers s2))
  else s2.

(** What happens to the bridge: a call from the render process, or a message
    arriving on the channel. *)
Inductive Step :=
| Exported (c : Call)
| Incoming (msg : Message).

Definition run_step (st : Step) (s : State) : State :=
  match st with
  | Exported c => run_exported c s
  | Incoming msg => handleAsyncIpc msg s
  end.

Definition run_steps (sts : list Step) (s : State) : State :=
  foldl (fun s st => run_step st s) s sts.

(** Reading the log. *)
Definition resolved (evs : list IpcEvent) : list (nat * Message) :=
  omap (fun e => match e with Resolve p m => Some (p, m) | _ => None end) evs.

Definition handled (evs : list IpcEvent) : list (nat * Message) :=
  omap (fun e => match e with Handle h m => Some (h, m) | _ => None end) evs.

Definition new_log (s s' : State) : list IpcEvent := drop (length (log s)) (log s').

(** The promises resolved so far and the promises waiting have distinct
    names, all of them names of promises already made. *)
Definition promises_distinct (s : State) : Prop :=
  NoDup (map fst (resolved (log s)) ++ map fst (promiseQueue s)) ∧
  Forall (fun p => (p < promises s)%nat)
    (map fst (resolved (log s)) ++ map fst (promiseQueue s)).
End Bridge.

(** [requestPtyCreate]: the message it hands to [request]. [args] absent
    becomes the empty list; [fromPtyId] is set only when it is truthy. *)
Definition requestPtyCreate_message (command : string) (args : option (list string))
    (columns rows : Z) (env : gmap string string) (fromPtyId : option Z)
    : CreatePtyRequestMessage.t :=
  let args := match args with None => [] | Some args => args end in
  {| CreatePtyRequestMessage.command := command;
     CreatePtyRequestMessage.args := args;
     CreatePtyRequestMessage.columns := columns;
     CreatePtyRequestMessage.rows := rows;
     CreatePtyRequestMessage.env := env;
     CreatePtyRequestMessage.fromPtyId :=
       match fromPtyId with
       | Some id => if truthy_number id then Some id else None
       | None => None
       end |}.
End WebIpc.

(** ** [MainWebUi] *)

Module MainWebUi.

(** [_shiftTab]: the index it selects and focuses, [None] when the tab
    widget has no tabs and nothing is done. [len] is [contents.length], [i]
    is [tabWidget.getSelectedIndex()]. *)
Definition _shiftTab (len i direction : Z) : option Z :=
  if len =? 0 then None
  else
    let i := i + direction in
    Some (if i <? 0 then len - 1 else if i >=? len then 0 else i).
End MainWebUi.

(** ** [Tab] *)

Module Tab.
(** A DOM node: an [HTMLElement] with its attributes and children, or a node
    of another kind (text, comment). *)
#[warnings="-register-all"]
Inductive Node :=
| HTMLElement (attributes : gmap string string) (childNodes : list Node)
| OtherNode (text : string).

Definition setAttribute (name value : string) (n : Node) : Node :=
  match n with
  | HTMLElement attributes childNodes =>
      HTMLElement (<[name := value]> attributes) childNodes
  | OtherNode text => OtherNode text
  end.

(** [_applyDraggable], on [this.childNodes]. *)
Definition _applyDraggable (childNodes : list Node) : list Node :=
  map (fun kid =>
         match kid with
         | HTMLElement _ _ => setAttribute "draggable" "true" kid
         | OtherNode _ => kid
         end) childNodes.
End Tab.

(** ** A bridge for the examples

    Message kinds are numbers and a message is the pair of its kind and a
    text. Handler 5 answers every message with one request for a reply of
    kind 9; the other handlers call nothing. *)
Definition example_type (msg : nat * string) : nat := fst msg.

Definition example_handler_calls (history : list (WebIpc.IpcEvent (Message:=nat * string)))
    (handler : nat) (msg : nat * string)
    : list (WebIpc.Call (MessageType:=nat) (Message:=nat * string)) :=
  if Nat.eqb handler 5 then [WebIpc.CallRequest (8%nat, "again") 9%nat] else [].

(** Handlers 5 and 6 registered for kind 3; three requests pending, the
    first and the third for a reply of kind 2, the second for kind 4. *)
Definition example_bridge : WebIpc.State (MessageType:=nat) (Message:=nat * string) :=
  WebIpc.run_steps example_type example_handler_calls
    [WebIpc.Exported (WebIpc.CallRegisterDefaultHandler 3%nat 5%nat);
     WebIpc.Exported (WebIpc.CallRequest (1%nat, "a") 2%nat);
     WebIpc.Exported (WebIpc.CallRequest (1%nat, "b") 4%nat);
     WebIpc.Exported (WebIpc.CallRegisterDefaultHandler 3%nat 6%nat);
     WebIpc.Exported (WebIpc.CallRequest (1%nat, "c") 2%nat)]
    WebIpc.start.

(** ** Properties of methods *)

(** [m] keeps [P]: whatever state it starts in and however it ends. *)
Definition preserves {A} (P : World → Prop) (m : M A) : Prop :=
  ∀ w, P w → P (snd (m w)).

(** [P] survives a call to the host and the removal of a session: the two
    things every method but [createPty] does to the world. *)
Definition shrink_closed (P : World → Prop) : Prop :=
  (∀ e w, P w → P (add_events [e] w)) ∧
  (∀ k w, P w → P (set_ptyMap (JsMap.delete (ptyMap w) k) w)).

(** * Properties *)

(** ** The map *)

Section JsMapFacts.
Context {V : Type}.
Implicit Types (m : JsMap.t V) (k : Z) (v : V).

Lemma JsMap_get_set m k v k' :
  JsMap.get (JsMap.set m k v) k' = if k =? k' then Some v else JsMap.get m k'.
Proof.
  induction m as [|[k0 v0] m IH]; simpl.
  - reflexivity.
  - destruct (Z.eqb_spec k0 k) as [->|Hne]; simpl.
    + destruct (k =? k'); reflexivity.
    + rewrite IH. destruct (Z.eqb_spec k0 k') as [->|Hne'].
      * destruct (Z.eqb_spec k k'); congruence.
      * reflexivity.
Qed.

Lemma JsMap_get_delete m k k' :
  JsMap.get (JsMap.delete m k) k' = if k =? k' then None else JsMap.get m k'.
Proof.
  induction m as [|[k0 v0] m IH]; simpl.
  - destruct (k =? k'); reflexivity.
  - destruct (Z.eqb_spec k0 k) as [->|Hne]; simpl.
    + rewrite IH. destruct (k =? k'); reflexivity.
    + rewrite IH. destruct (Z.eqb_spec k0 k') as [->|Hne'].
      * destruct (Z.eqb_spec k k'); congruence.
      * reflexivity.
Qed.

Lemma JsMap_get_delete_same m k : JsMap.get (JsMap.delete m k) k = None.
Proof. rewrite JsMap_get_delete, Z.eqb_refl. reflexivity. Qed.

Lemma JsMap_get_None m k : JsMap.get m k = None ↔ k ∉ JsMap.keys m.
Proof.
  unfold JsMap.keys. induction m as [|[k0 v0] m IH]; simpl.
  - split; [intros _; apply not_elem_of_nil | reflexivity].
  - rewrite not_elem_of_cons. destruct (Z.eqb_spec k0 k) as [->|Hne].
    + split; [discriminate | intros [? _]; congruence].
    + rewrite IH. split; [intros ?; split; congruence | intros [_ ?]; assumption].
Qed.

Lemma JsMap_get_Some_elem m k v : JsMap.get m k = Some v → (k, v) ∈ m.
Proof.
  induction m as [|[k0 v0] m IH]; simpl; [discriminate|].
  destruct (Z.eqb_spec k0 k) as [->|Hne].
  - intros [= ->]. apply list_elem_of_here.
  - intros Hg. apply list_elem_of_further, IH, Hg.
Qed.

Lemma JsMap_elem_get m k v : JsMap.wf m → (k, v) ∈ m → JsMap.get m k = Some v.
Proof.
  unfold JsMap.wf, JsMap.keys.
  induction m as [|[k0 v0] m IH]; simpl; intros Hnd Hin.
  - apply elem_of_nil in Hin as [].
  - apply NoDup_cons in Hnd as [Hk0 Hnd]. apply elem_of_cons in Hin as [[= -> ->]|Hin].
    + rewrite Z.eqb_refl. reflexivity.
    + destruct (Z.eqb_spec k0 k) as [->|Hne]; [|auto].
      exfalso. apply Hk0. apply (list_elem_of_fmap_2 fst) in Hin. exact Hin.
Qed.

Lemma JsMap_delete_absent m k : k ∉ JsMap.keys m → JsMap.delete m k = m.
Proof.
  unfold JsMap.keys. induction m as [|[k0 v0] m IH]; simpl; [reflexivity|].
  rewrite not_elem_of_cons. intros [Hne Hk].
  destruct (Z.eqb_spec k0 k); [congruence|]. rewrite IH by assumption. reflexivity.
Qed.

Lemma JsMap_keys_delete m k :
  JsMap.keys (JsMap.delete m k) = filter (fun k' => k' ≠ k) (JsMap.keys m).
Proof.
  unfold JsMap.keys. induction m as [|[k0 v0] m IH]; simpl; [reflexivity|].
  rewrite filter_cons. simpl. destruct (Z.eqb_spec k0 k) as [->|Hne].
  - rewrite decide_False by congruence. exact IH.
  - rewrite decide_True by assumption. simpl. rewrite IH. reflexivity.
Qed.

Lemma JsMap_keys_set m k v :
  JsMap.keys (JsMap.set m k v) =
    if decide (k ∈ JsMap.keys m) then JsMap.keys m else JsMap.keys m ++ [k].
Proof.
  unfold JsMap.keys. induction m as [|[k0 v0] m IH].
  - destruct (decide (k ∈ map fst (@nil (Z * V)))) as [Hin|_]; [|reflexivity].
    apply elem_of_nil in Hin as [].
  - cbn [JsMap.set map fst]. destruct (Z.eqb_spec k0 k) as [->|Hne].
    + destruct (decide (k ∈ k :: map fst m)) as [_|Hnin]; [reflexivity|].
      exfalso. apply Hnin, list_elem_of_here.
    + cbn [map fst]. rewrite IH.
      destruct (decide (k ∈ map fst m)) as [Hin|Hnin];
        destruct (decide (k ∈ k0 :: map fst m)) as [Hin'|Hnin']; try reflexivity.
      * exfalso. apply Hnin', list_elem_of_further, Hin.
      * exfalso. apply elem_of_cons in Hin' as [?|?]; [congruence|auto].
Qed.

Lemma JsMap_wf_delete m k : JsMap.wf m → JsMap.wf (JsMap.delete m k).
Proof. unfold JsMap.wf. rewrite JsMap_keys_delete. apply NoDup_filter. Qed.

Lemma JsMap_wf_set m k v : JsMap.wf m → JsMap.wf (JsMap.set m k v).
Proof.
  unfold JsMap.wf. rewrite JsMap_keys_set. intros Hnd.
  destruct (decide (k ∈ JsMap.keys m)) as [Hin|Hnin]; [assumption|].
  apply NoDup_app. split; [assumption|]. split.
  - intros x Hx Hx'. apply list_elem_of_singleton in Hx'. congruence.
  - apply NoDup_singleton.
Qed.

(** Deleting the key of an entry of a well-formed map removes that entry
    and leaves the others in place. *)
Lemma JsMap_delete_middle (m1 m2 : JsMap.t V) k v :
  JsMap.wf (m1 ++ (k, v) :: m2) →
  JsMap.delete (m1 ++ (k, v) :: m2) k = m1 ++ m2.
Proof.
  unfold JsMap.wf, JsMap.keys. rewrite fmap_app, fmap_cons. simpl.
  intros Hnd. apply NoDup_app in Hnd as (Hnd1 & Hdisj & Hnd2).
  apply NoDup_cons in Hnd2 as [Hk2 _].
  assert (Hk1 : k ∉ map fst m1).
  { intros Hin. apply (Hdisj k Hin). apply list_elem_of_here. }
  clear Hnd1 Hdisj. induction m1 as [|[k0 v0] m1 IH]; simpl.
  - rewrite Z.eqb_refl. apply JsMap_delete_absent. exact Hk2.
  - simpl in Hk1. apply not_elem_of_cons in Hk1 as [Hne Hk1].
    destruct (Z.eqb_spec k0 k); [congruence|]. rewrite IH by assumption. reflexivity.
Qed.

Lemma JsMap_get_middle (m1 m2 : JsMap.t V) k v :
  JsMap.wf (m1 ++ (k, v) :: m2) → JsMap.get (m1 ++ (k, v) :: m2) k = Some v.
Proof.
  intros Hwf. apply JsMap_elem_get; [assumption|].
  apply elem_of_app. right. apply list_elem_of_here.
Qed.

Lemma JsMap_wf_filter (P : Z * V → Prop) `{!∀ x, Decision (P x)} m :
  JsMap.wf m → JsMap.wf (filter P m).
Proof.
  unfold JsMap.wf, JsMap.keys. induction m as [|[k0 v0] m IH]; intros Hnd.
  - constructor.
  - change (NoDup (k0 :: map fst m)) in Hnd.
    apply NoDup_cons in Hnd as [Hk Hnd]. rewrite filter_cons.
    destruct (decide (P (k0, v0))); [|auto].
    change (NoDup (k0 :: map fst (filter P m))). apply NoDup_cons. split; [|auto].
    intros Hin. apply Hk. apply list_elem_of_fmap in Hin as ([k1 v1] & -> & Hin).
    apply list_elem_of_filter in Hin as [_ Hin].
    apply (list_elem_of_fmap_2 fst) in Hin. exact Hin.
Qed.

Lemma JsMap_get_filter (P : Z * V → Prop) `{!∀ x, Decision (P x)} m k v :
  JsMap.wf m →
  JsMap.get (filter P m) k = Some v ↔ JsMap.get m k = Some v ∧ P (k, v).
Proof.
  intros Hwf. split.
  - intros Hg. apply JsMap_get_Some_elem in Hg.
    apply list_elem_of_filter in Hg as [HP Hin]. split; [|assumption].
    apply JsMap_elem_get; assumption.
  - intros [Hg HP]. apply JsMap_elem_get; [apply JsMap_wf_filter, Hwf|].
    apply list_elem_of_filter. split; [assumption|]. apply JsMap_get_Some_elem, Hg.
Qed.
End JsMapFacts.

(** ** The monad *)

Lemma add_events_nil w : add_events [] w = w.
Proof. destruct w. unfold add_events. simpl. rewrite app_nil_r. reflexivity. Qed.

Lemma add_events_app evs evs' w :
  add_events evs' (add_events evs w) = add_events (evs ++ evs') w.
Proof. unfold add_events. simpl. rewrite app_assoc. reflexivity. Qed.

Lemma new_events_add evs w : new_events w (add_events evs w) = evs.
Proof. unfold new_events, add_events. simpl. apply drop_app_length. Qed.

Lemma new_events_extends w w' evs : trace w' = trace w ++ evs → new_events w w' = evs.
Proof. unfold new_events. intros ->. apply drop_app_length. Qed.

Lemma preserves_ret {A} P (a : A) : preserves P (ret a).
Proof. intros w Hw. exact Hw. Qed.

Lemma preserves_throw {A} P e : preserves P (@throw A e).
Proof. intros w Hw. exact Hw. Qed.

Lemma preserves_bind {A B} P (m : M A) (k : A → M B) :
  preserves P m → (∀ a, preserves P (k a)) → preserves P (bind m k).
Proof.
  intros Hm Hk w Hw. unfold bind. specialize (Hm w Hw).
  destruct (m w) as [[a|e] w']; simpl in *.
  - apply Hk, Hm.
  - exact Hm.
Qed.

Lemma preserves_for_of {A} P (xs : list A) (body : A → M unit) :
  (∀ x, preserves P (body x)) → preserves P (for_of xs body).
Proof.
  intros Hbody. induction xs as [|x xs IH]; simpl.
  - apply preserves_ret.
  - apply preserves_bind; [apply Hbody | intros _; exact IH].
Qed.

Lemma preserves_emit P e : shrink_closed P → preserves P (emit e).
Proof. intros [He _] w Hw. apply He, Hw. Qed.

Lemma preserves_ptyMap_delete P k : shrink_closed P → preserves P (ptyMap_delete k).
Proof. intros [_ Hd] w Hw. apply Hd, Hw. Qed.

Lemma preserves_ptyMap_get P k (cont : option PtyTuple → M unit) :
  (∀ r, preserves P (cont r)) → preserves P (bind (ptyMap_get k) cont).
Proof. intros Hc. apply preserves_bind; [intros w Hw; exact Hw | exact Hc]. Qed.

Create HintDb preserves.

#[local] Hint Resolve preserves_ret preserves_throw preserves_emit
  preserves_ptyMap_delete : preserves.

Ltac preserves_step :=
  first
    [ apply preserves_ptyMap_get; intros [?|]
    | apply preserves_bind; [|intros ?]
    | apply preserves_for_of; intros ?
    | progress eauto with preserves ].

(** ** Methods that only call the host and remove sessions *)

Section Shrinking.
Context (H : Host) (P : World → Prop) (HP : shrink_closed P).

Lemma closePty_preserves id : preserves P (PtyManager.closePty id).
Proof.
  unfold PtyManager.closePty, PtyOps.destroy. repeat preserves_step.
Qed.

Lemma cleanUpPtyWindow_preserves windowId' :
  preserves P (PtyManager.cleanUpPtyWindow windowId').
Proof.
  unfold PtyManager.cleanUpPtyWindow.
  apply preserves_bind; [intros w Hw; exact Hw|]. intros keys.
  apply preserves_for_of. intros key. apply preserves_ptyMap_get. intros [tup|].
  - destruct (windowId tup =? windowId'); [apply closePty_preserves | apply preserves_ret].
  - apply preserves_throw.
Qed.

Lemma handlePtyInput_preserves msg : preserves P (PtyManager.handlePtyInput msg).
Proof.
  unfold PtyManager.handlePtyInput, PtyOps.write, logger_warn. repeat preserves_step.
Qed.

Lemma handlePtyOutputBufferSize_preserves msg :
  preserves P (PtyManager.handlePtyOutputBufferSize msg).
Proof.
  unfold PtyManager.handlePtyOutputBufferSize, PtyOps.permittedDataSize, logger_warn.
  repeat preserves_step.
Qed.

Lemma handlePtyResize_preserves msg : preserves P (PtyManager.handlePtyResize msg).
Proof.
  unfold PtyManager.handlePtyResize, PtyOps.resize, logger_warn. repeat preserves_step.
Qed.

Lemma handlePtyCloseRequest_preserves msg :
  preserves P (PtyManager.handlePtyCloseRequest msg).
Proof.
  unfold PtyManager.handlePtyCloseRequest, logger_warn.
  apply preserves_ptyMap_get. intros [tup|];
    [apply closePty_preserves | eauto with preserves].
Qed.

Lemma call_listener_preserves l ev : preserves P (PtyManager.call_listener H l ev).
Proof.
  assert (Hq : ∀ s, preserves P (PtyManager.isDestroyed H s)).
  { intros s w Hw. exact Hw. }
  destruct l, ev; simpl; try apply preserves_ret.
  - unfold PtyManager.onData_callback, send.
    apply preserves_bind; [apply Hq|]. intros [|]; simpl; eauto with preserves.
  - unfold PtyManager.onExit_callback, send, logger_debug, PtyOps.destroy.
    apply preserves_bind; [eauto with preserves|]. intros _.
    apply preserves_bind; [apply Hq|]. intros d.
    apply preserves_bind; [destruct d; simpl; eauto with preserves|]. intros _.
    apply preserves_bind; [eauto with preserves|]. intros _. eauto with preserves.
  - unfold PtyManager.onAvailableWriteBufferSizeChange_callback, send.
    eauto with preserves.
Qed.

Lemma fire_preserves p ev : preserves P (PtyManager.fire H p ev).
Proof.
  intros w Hw. unfold PtyManager.fire.
  apply (preserves_for_of P); [|exact Hw]. intros l. apply call_listener_preserves.
Qed.
End Shrinking.

(** ** [createPty], step by step *)

Section CreatePty.
Context (H : Host).

(** Building the options always returns; it calls nothing but the logger
    and changes nothing else. *)
Lemma createPty_options_spec env cols rows fromPtyId w :
  ∃ logs,
    PtyManager.createPty_options H env cols rows fromPtyId w =
      (Returned {| PtyOptions.name := "xterm"; PtyOptions.cols := cols;
                   PtyOptions.rows := rows;
                   PtyOptions.env := <["TERM" := "xterm"]> env;
                   PtyOptions.cwd :=
                     match fromPtyId with
                     | None => None
                     | Some id =>
                         if truthy_number id then
                           match JsMap.get (ptyMap w) id with
                           | None => None
                           | Some fromPty =>
                               let cwd :=
                                 host_getCwd H
                                   (trace w ++ [EvLog Debug "Got fromPtyId ...";
                                                EvLog Debug "fromPty was found: "])
                                   (ptyTerm fromPty) in
                               if truthy_string cwd then cwd else None
                           end
                         else None
                     end |},
       add_events logs w)
    ∧ spawn_calls logs = [].
Proof.
  unfold PtyManager.createPty_options.
  destruct fromPtyId as [id|]; [|exists []; rewrite add_events_nil; split; reflexivity].
  destruct (truthy_number id); [|exists []; rewrite add_events_nil; split; reflexivity].
  unfold bind, logger_debug, emit, ptyMap_get, PtyManager.getCwd, ret. simpl.
  destruct (JsMap.get (ptyMap w) id) as [fromPty|].
  - simpl. rewrite <- app_assoc. simpl.
    destruct (truthy_string _) eqn:Hcwd.
    + eexists [_; _; _; _]. rewrite !add_events_app. simpl. split; reflexivity.
    + eexists [_; _; _]. rewrite !add_events_app. simpl. split; reflexivity.
  - eexists [_]. split; reflexivity.
Qed.

Lemma createPty_unfold sender file args env cols rows fromPtyId w ptyOptions w0 :
  PtyManager.createPty_options H env cols rows fromPtyId w = (Returned ptyOptions, w0) →
  PtyManager.createPty H sender file args env cols rows fromPtyId w =
    let r := host_spawn H (trace w0) file args ptyOptions in
    let w1 := add_events [EvSpawn file args ptyOptions r] w0 in
    match r with
    | inl e => (Thrown e, w1)
    | inr p =>
        match host_windowId H (trace w1) sender with
        | None =>
            (Thrown (TypeError "Cannot read property 'id' of null"),
             {| ptyMap := ptyMap w1; ptyCounter := ptyCounter w1 + 1;
                listeners := listeners w1; trace := trace w1 |})
        | Some wid =>
            (Returned (ptyCounter w1 + 1),
             {| ptyMap :=
                  JsMap.set (ptyMap w1) (ptyCounter w1 + 1)
                    {| windowId := wid; ptyTerm := p;
                       outputBufferSize := 0; outputPaused := true |};
                ptyCounter := ptyCounter w1 + 1;
                listeners :=
                  listeners w1 ++
                    [(p, OnData sender (ptyCounter w1 + 1));
                     (p, OnExit sender (ptyCounter w1 + 1) p);
                     (p, OnAvailableWriteBufferSizeChange sender (ptyCounter w1 + 1))];
                trace := trace w1 |})
        end
    end.
Proof.
  intros Hopts. unfold PtyManager.createPty, bind at 1. rewrite Hopts.
  unfold PtyManager.createPty_spawn, bind at 1. unfold PtyManager.spawn.
  destruct (host_spawn H (trace w0) file args ptyOptions) as [e|p]; simpl; [reflexivity|].
  unfold bind, next_ptyCounter, PtyManager.fromWebContents_id. simpl.
  destruct (host_windowId H (trace w0 ++ _) sender) as [wid|]; [|reflexivity].
  unfold ptyMap_set, with_ptyMap, PtyOps.onData, PtyOps.onExit,
    PtyOps.onAvailableWriteBufferSizeChange, add_listener, set_ptyMap, ret. simpl.
  rewrite <- !app_assoc. reflexivity.
Qed.
End CreatePty.

Section CreatePtyCases.
Context (H : Host).

(** The whole of [createPty] on a state [w]: the options it builds, the one
    call of [spawn], and the three ways it can end. *)
Lemma createPty_cases sender file args env cols rows fromPtyId w :
  ∃ logs cwd,
    spawn_calls logs = [] ∧
    cwd = match fromPtyId with
          | None => None
          | Some id =>
              if truthy_number id then
                match JsMap.get (ptyMap w) id with
                | None => None
                | Some fromPty =>
                    let cwd :=
                      host_getCwd H
                        (trace w ++ [EvLog Debug "Got fromPtyId ...";
                                     EvLog Debug "fromPty was found: "])
                        (ptyTerm fromPty) in
                    if truthy_string cwd then cwd else None
                end
              else None
          end ∧
    let ptyOptions :=
      {| PtyOptions.name := "xterm"; PtyOptions.cols := cols; PtyOptions.rows := rows;
         PtyOptions.env := <["TERM" := "xterm"]> env; PtyOptions.cwd := cwd |} in
    let r := host_spawn H (trace w ++ logs) file args ptyOptions in
    let tr := trace w ++ logs ++ [EvSpawn file args ptyOptions r] in
    PtyManager.createPty H sender file args env cols rows fromPtyId w =
      match r with
      | inl e =>
          (Thrown e,
           {| ptyMap := ptyMap w; ptyCounter := ptyCounter w;
              listeners := listeners w; trace := tr |})
      | inr p =>
          match host_windowId H tr sender with
          | None =>
              (Thrown (TypeError "Cannot read property 'id' of null"),
               {| ptyMap := ptyMap w; ptyCounter := ptyCounter w + 1;
                  listeners := listeners w; trace := tr |})
          | Some wid =>
              (Returned (ptyCounter w + 1),
               {| ptyMap :=
                    JsMap.set (ptyMap w) (ptyCounter w + 1)
                      {| windowId := wid; ptyTerm := p;
                         outputBufferSize := 0; outputPaused := true |};
                  ptyCounter := ptyCounter w + 1;
                  listeners :=
                    listeners w ++
                      [(p, OnData sender (ptyCounter w + 1));
                       (p, OnExit sender (ptyCounter w + 1) p);
                       (p, OnAvailableWriteBufferSizeChange sender (ptyCounter w + 1))];
                  trace := tr |})
          end
      end.
Proof.
  destruct (createPty_options_spec H env cols rows fromPtyId w) as (logs & Hopts & Hlogs).
  exists logs, (match fromPtyId with
                | None => None
                | Some id =>
                    if truthy_number id then
                      match JsMap.get (ptyMap w) id with
                      | None => None
                      | Some fromPty =>
                          let cwd :=
                            host_getCwd H
                              (trace w ++ [EvLog Debug "Got fromPtyId ...";
                                           EvLog Debug "fromPty was found: "])
                              (ptyTerm fromPty) in
                          if truthy_string cwd then cwd else None
                      end
                    else None
                end).
  split; [exact Hlogs|]. split; [reflexivity|].
  rewrite (createPty_unfold H _ _ _ _ _ _ _ _ _ _ Hopts).
  cbv zeta. unfold add_events. cbn [ptyMap ptyCounter listeners trace].
  rewrite <- !app_assoc. reflexivity.
Qed.
End CreatePtyCases.



(** ** Spawn failure *)



(** ** States a manager can reach *)

Lemma inv_initial : inv initial.
Proof.
  split; [constructor|]. split; [reflexivity | constructor].
Qed.

Lemma inv_shrink_closed : shrink_closed inv.
Proof.
  split.
  - intros e w Hw. exact Hw.
  - intros k w [Hwf [Hc Hk]]. split; [|split]; simpl.
    + apply JsMap_wf_delete, Hwf.
    + exact Hc.
    + rewrite JsMap_keys_delete. rewrite Forall_forall in Hk |- *.
      intros k' Hin. apply list_elem_of_filter in Hin as [_ Hin]. apply Hk, Hin.
Qed.

Lemma ids_allocated_set (m : JsMap.t PtyTuple) c v :
  0 ≤ c →
  Forall (fun k => 0 < k ≤ c) (JsMap.keys m) →
  Forall (fun k => 0 < k ≤ c + 1) (JsMap.keys (JsMap.set m (c + 1) v)).
Proof.
  intros Hc Hk.
  assert (Hk' : Forall (fun k => 0 < k ≤ c + 1) (JsMap.keys m)).
  { eapply Forall_impl; [exact Hk|]. simpl. intros k ?. lia. }
  rewrite JsMap_keys_set. destruct (decide (c + 1 ∈ JsMap.keys m)); [exact Hk'|].
  apply Forall_app. split; [exact Hk'|]. apply Forall_singleton. lia.
Qed.

Lemma createPty_preserves_inv H sender file args env cols rows fromPtyId :
  preserves inv (PtyManager.createPty H sender file args env cols rows fromPtyId).
Proof.
  intros w (Hwf & Hc & Hk).
  destruct (createPty_cases H sender file args env cols rows fromPtyId w)
    as (logs & cwd & _ & _ & Hrun).
  cbv zeta in Hrun. rewrite Hrun. clear Hrun.
  destruct (host_spawn H (trace w ++ logs) file args _) as [e|p].
  - split; [exact Hwf|]. split; [exact Hc | exact Hk].
  - destruct (host_windowId H _ sender) as [wid|]; (split; [|split]); simpl.
    + apply JsMap_wf_set, Hwf.
    + lia.
    + apply ids_allocated_set; assumption.
    + exact Hwf.
    + lia.
    + eapply Forall_impl; [exact Hk|]. simpl. intros k ?. lia.
Qed.

Lemma run_call_preserves H (P : World → Prop) c :
  shrink_closed P →
  (∀ sender file args env cols rows fromPtyId,
     preserves P (PtyManager.createPty H sender file args env cols rows fromPtyId)) →
  preserves P (PtyManager.run_call H c).
Proof.
  intros HP Hcreate.
  destruct c; simpl;
    (apply preserves_bind; [|intros ?; apply preserves_ret]).
  - apply Hcreate.
  - unfold PtyManager.handlePtyCreate.
    apply preserves_bind; [apply Hcreate | intros ?; apply preserves_ret].
  - apply closePty_preserves, HP.
  - apply cleanUpPtyWindow_preserves, HP.
  - apply handlePtyInput_preserves, HP.
  - apply handlePtyOutputBufferSize_preserves, HP.
  - apply handlePtyResize_preserves, HP.
  - apply handlePtyCloseRequest_preserves, HP.
  - apply fire_preserves, HP.
Qed.

Lemma run_calls_preserves H (P : World → Prop) cs w :
  shrink_closed P →
  (∀ sender file args env cols rows fromPtyId,
     preserves P (PtyManager.createPty H sender file args env cols rows fromPtyId)) →
  P w → P (snd (PtyManager.run_calls H cs w)).
Proof.
  intros HP Hcreate. revert w. induction cs as [|c cs IH]; intros w Hw; simpl.
  - exact Hw.
  - pose proof (run_call_preserves H P c HP Hcreate w Hw) as Hw'.
    destruct (PtyManager.run_call H c w) as [r w']. simpl in Hw'.
    specialize (IH w' Hw'). destruct (PtyManager.run_calls H cs w') as [ids w''].
    exact IH.
Qed.

Lemma reachable_inv H w : reachable H w → inv w.
Proof.
  intros [cs <-]. apply run_calls_preserves.
  - apply inv_shrink_closed.
  - intros. apply createPty_preserves_inv.
  - apply inv_initial.
Qed.


(** ** What [spawn] is called with *)




(** ** The environment handed to [spawn] *)



(** ** Session ids *)









(** ** Closing sessions *)

Lemma closePty_absent id w :
  JsMap.get (ptyMap w) id = None → PtyManager.closePty id w = (Returned tt, w).
Proof. intros Hg. unfold PtyManager.closePty, bind, ptyMap_get. rewrite Hg. reflexivity. Qed.

Lemma closePty_present id tup w :
  JsMap.get (ptyMap w) id = Some tup →
  PtyManager.closePty id w =
    (Returned tt,
     set_ptyMap (JsMap.delete (ptyMap w) id) (add_events [EvDestroy (ptyTerm tup)] w)).
Proof. intros Hg. unfold PtyManager.closePty, bind, ptyMap_get. rewrite Hg. reflexivity. Qed.

Lemma TerminalWindow_closePty_eq id w :
  TerminalWindow.closePty id w = PtyManager.closePty id w.
Proof. reflexivity. Qed.

Lemma TerminalWindow_cleanUpPtyWindow_eq windowId' w :
  TerminalWindow.cleanUpPtyWindow windowId' w = PtyManager.cleanUpPtyWindow windowId' w.
Proof. reflexivity. Qed.

(** The loop of [cleanUpPtyWindow], with the entries [done] already visited
    and kept and the entries [rest] still to visit. *)
Lemma cleanUpPtyWindow_loop windowId' (rest done : JsMap.t PtyTuple) w :
  JsMap.wf (done ++ rest) →
  ptyMap w = done ++ rest →
  ∃ w',
    for_of (JsMap.keys rest)
      (fun key =>
         tup <- ptyMap_get key ;;
         match tup with
         | None => throw (TypeError "Cannot read property 'windowId' of undefined")
         | Some tup =>
             if windowId tup =? windowId' then PtyManager.closePty key else ret tt
         end) w = (Returned tt, w') ∧
    ptyMap w' = done ++ filter (fun kv => ¬ owned_by windowId' kv) rest ∧
    ptyCounter w' = ptyCounter w ∧
    listeners w' = listeners w ∧
    trace w' = trace w ++
      map (fun kv => EvDestroy (ptyTerm (snd kv))) (filter (owned_by windowId') rest).
Proof.
  revert done w. induction rest as [|[k tup] rest IH]; intros done w Hwf Hmap.
  - exists w. simpl. rewrite app_nil_r in Hmap. rewrite !app_nil_r.
    repeat split; try reflexivity. exact Hmap.
  - assert (Hget : JsMap.get (ptyMap w) k = Some tup).
    { rewrite Hmap. apply JsMap_get_middle, Hwf. }
    cbn [JsMap.keys map fst for_of]. unfold bind at 1. unfold bind at 1.
    unfold ptyMap_get at 1. rewrite Hget. rewrite !filter_cons.
    unfold owned_by at 1 3. cbn [snd].
    destruct (Z.eqb_spec (windowId tup) windowId') as [Hown|Hown].
    + rewrite (closePty_present _ _ _ Hget).
      rewrite decide_False by (intros Hn; apply Hn, Hown).
      rewrite decide_True by exact Hown.
      destruct (IH done
                  (set_ptyMap (JsMap.delete (ptyMap w) k)
                     (add_events [EvDestroy (ptyTerm tup)] w))) as (w' & Hrun & Hm & Hc & Hl & Ht).
      * unfold JsMap.wf, JsMap.keys in Hwf |- *. rewrite fmap_app in Hwf |- *.
        rewrite fmap_cons in Hwf. apply NoDup_app in Hwf as (Hd & Hdisj & Hr).
        apply NoDup_cons in Hr as [_ Hr]. apply NoDup_app. split; [exact Hd|].
        split; [|exact Hr]. intros x Hx Hx'. apply (Hdisj x Hx).
        apply list_elem_of_further, Hx'.
      * simpl. rewrite Hmap. apply JsMap_delete_middle, Hwf.
      * exists w'. split; [exact Hrun|]. split; [exact Hm|]. split; [exact Hc|].
        split; [exact Hl|]. rewrite Ht. simpl. rewrite <- app_assoc. reflexivity.
    + rewrite decide_True by exact Hown.
      rewrite decide_False by exact Hown.
      destruct (IH (done ++ [(k, tup)]) w) as (w' & Hrun & Hm & Hc & Hl & Ht).
      * rewrite <- app_assoc. exact Hwf.
      * rewrite <- app_assoc. exact Hmap.
      * exists w'. split; [exact Hrun|]. split; [|auto].
        rewrite Hm, <- app_assoc. reflexivity.
Qed.

(** C2. On a map (each key held once), [cleanUpPtyWindow w] returns; it calls
    [destroy] on the [Pty] of each session whose [windowId] is [w], once, in
    map order, and on nothing else; the map it leaves holds exactly the
    sessions of the other windows, each under its id with its tuple unchanged,
    so no session of [w] remains. The window's own copy of the method
    ([TerminalWindow.cleanUpPtyWindow]) does the same. *)
Theorem cleanUpPtyWindow_cascade windowId' w :
  JsMap.wf (ptyMap w) →
  ∃ w',
    PtyManager.cleanUpPtyWindow windowId' w = (Returned tt, w') ∧
    TerminalWindow.cleanUpPtyWindow windowId' w = (Returned tt, w') ∧
    new_events w w' =
      map (fun kv => EvDestroy (ptyTerm (snd kv)))
        (filter (owned_by windowId') (ptyMap w)) ∧
    ptyMap w' = filter (fun kv => ¬ owned_by windowId' kv) (ptyMap w) ∧
    (∀ id tup,
       JsMap.get (ptyMap w') id = Some tup ↔
       JsMap.get (ptyMap w) id = Some tup ∧ windowId tup ≠ windowId') ∧
    ptyCounter w' = ptyCounter w ∧
    listeners w' = listeners w.
Proof.
  intros Hwf.
  destruct (cleanUpPtyWindow_loop windowId' (ptyMap w) [] w Hwf eq_refl)
    as (w' & Hrun & Hm & Hc & Hl & Ht).
  exists w'. simpl in Hm.
  assert (Hrun' : PtyManager.cleanUpPtyWindow windowId' w = (Returned tt, w')).
  { unfold PtyManager.cleanUpPtyWindow, bind at 1, ptyMap_keys. exact Hrun. }
  split; [exact Hrun'|]. split; [rewrite TerminalWindow_cleanUpPtyWindow_eq; exact Hrun'|].
  split; [apply new_events_extends, Ht|]. split; [exact Hm|].
  split; [|split; assumption].
  intros id tup. rewrite Hm. rewrite JsMap_get_filter by exact Hwf. reflexivity.
Qed.

Lemma cleanUpPtyWindow_cascade_witness :
  ∃ w',
    PtyManager.cleanUpPtyWindow 7 three_sessions = (Returned tt, w') ∧
    destroy_calls (new_events three_sessions w') = [0%nat; 2%nat] ∧
    JsMap.keys (ptyMap w') = [2].
Proof.
  destruct (cleanUpPtyWindow_cascade 7 three_sessions)
    as (w' & Hrun & _ & Hev & Hm & _).
  - vm_compute. repeat constructor; compute; intros Hin;
      repeat (apply elem_of_cons in Hin as [Hin|Hin]; [discriminate Hin|]);
      apply elem_of_nil in Hin; exact Hin.
  - exists w'. split; [exact Hrun|]. rewrite Hev, Hm. split; vm_compute; reflexivity.
Defined.

(** The exit callback, run on [w]. *)
Lemma onExit_callback_run H sender id p w :
  PtyManager.onExit_callback H sender id p w =
    (Returned tt,
     set_ptyMap (JsMap.delete (ptyMap w) id)
       (add_events
          (EvLog Debug "pty process exited." ::
           (if host_isDestroyed H (trace w ++ [EvLog Debug "pty process exited."]) sender
            then [] else [EvSend sender (PTY_CLOSE id)]) ++
           [EvDestroy p]) w)).
Proof.
  unfold PtyManager.onExit_callback, bind, logger_debug, emit,
    PtyManager.isDestroyed, send, PtyOps.destroy, ptyMap_delete, with_ptyMap.
  simpl. destruct (host_isDestroyed H _ sender); simpl;
    unfold set_ptyMap, add_events; simpl; rewrite <- !app_assoc; reflexivity.
Qed.

(** C3. [closePty] on an id the map does not hold returns and leaves
    everything as it was. Called twice with the same id it returns both
    times, the second call changes nothing, [destroy] has been called at most
    once in all, and the id is gone. Called after the session's exit callback
    ran, it returns and changes nothing. *)
Theorem closePty_idempotent H id w :
  (JsMap.get (ptyMap w) id = None → PtyManager.closePty id w = (Returned tt, w)) ∧
  (∃ w1,
     PtyManager.closePty id w = (Returned tt, w1) ∧
     PtyManager.closePty id w1 = (Returned tt, w1) ∧
     (length (destroy_calls (new_events w w1)) ≤ 1)%nat ∧
     JsMap.get (ptyMap w1) id = None) ∧
  (∀ sender p,
     ∃ w1,
       PtyManager.onExit_callback H sender id p w = (Returned tt, w1) ∧
       PtyManager.closePty id w1 = (Returned tt, w1)).
Proof.
  split; [apply closePty_absent|]. split.
  - destruct (JsMap.get (ptyMap w) id) as [tup|] eqn:Hg.
    + eexists. split; [apply (closePty_present _ _ _ Hg)|].
      assert (Hgone : JsMap.get (JsMap.delete (ptyMap w) id) id = None)
        by apply JsMap_get_delete_same.
      split; [apply closePty_absent; exact Hgone|]. split; [|exact Hgone].
      unfold new_events. simpl. rewrite drop_app_length. simpl. lia.
    + exists w. rewrite (closePty_absent _ _ Hg). split; [reflexivity|].
      split; [reflexivity|]. split; [|exact Hg].
      unfold new_events. rewrite drop_all. simpl. lia.
  - intros sender p. eexists. split; [apply onExit_callback_run|].
    apply closePty_absent. simpl. apply JsMap_get_delete_same.
Qed.

Lemma closePty_idempotent_witness :
  PtyManager.closePty 9 three_sessions = (Returned tt, three_sessions).
Proof.
  apply (proj1 (closePty_idempotent good_host 9 three_sessions)).
  vm_compute. reflexivity.
Defined.

(** ** Requests for a session *)

(** C5. A [PTY_INPUT], [PTY_OUTPUT_BUFFER_SIZE] or [PTY_RESIZE] message whose
    id is not in the map makes its handler log one warning and return, with
    the map, the counter and the callbacks untouched and no [Pty] called; a
    message whose id is in the map makes the handler call [write],
    [permittedDataSize] or [resize] on that session's [Pty] with the
    message's fields, and nothing else. *)
Theorem handlers_unknown_and_known w :
  (∀ msg,
     JsMap.get (ptyMap w) (PtyInput.id msg) = None →
     ∃ w', PtyManager.handlePtyInput msg w = (Returned tt, w') ∧
           only_called
             [EvLog Warn
                "handlePtyInput() WARNING: Input arrived for a terminal which doesn't exist."]
             w w') ∧
  (∀ msg,
     JsMap.get (ptyMap w) (PtyOutputBufferSize.id msg) = None →
     ∃ w', PtyManager.handlePtyOutputBufferSize msg w = (Returned tt, w') ∧
           only_called
             [EvLog Warn
                "handlePtyOutputBufferSize() WARNING: Input arrived for a terminal which doesn't exist."]
             w w') ∧
  (∀ msg,
     JsMap.get (ptyMap w) (PtyResize.id msg) = None →
     ∃ w', PtyManager.handlePtyResize msg w = (Returned tt, w') ∧
           only_called
             [EvLog Warn
                "handlePtyResize() WARNING: Input arrived for a terminal which doesn't exist."]
             w w') ∧
  (∀ msg tup,
     JsMap.get (ptyMap w) (PtyInput.id msg) = Some tup →
     ∃ w', PtyManager.handlePtyInput msg w = (Returned tt, w') ∧
           only_called [EvWrite (ptyTerm tup) (PtyInput.data msg)] w w') ∧
  (∀ msg tup,
     JsMap.get (ptyMap w) (PtyOutputBufferSize.id msg) = Some tup →
     ∃ w', PtyManager.handlePtyOutputBufferSize msg w = (Returned tt, w') ∧
           only_called
             [EvPermittedDataSize (ptyTerm tup) (PtyOutputBufferSize.size msg)] w w') ∧
  (∀ msg tup,
     JsMap.get (ptyMap w) (PtyResize.id msg) = Some tup →
     ∃ w', PtyManager.handlePtyResize msg w = (Returned tt, w') ∧
           only_called
             [EvResize (ptyTerm tup) (PtyResize.columns msg) (PtyResize.rows msg)] w w').
Proof.
  assert (Hrun : ∀ (k : Z) (r : option PtyTuple) (cont : option PtyTuple → M unit) evs,
    JsMap.get (ptyMap w) k = r →
    cont r = (fun w0 => (Returned tt, add_events evs w0)) →
    ∃ w', bind (ptyMap_get k) cont w = (Returned tt, w') ∧ only_called evs w w').
  { intros k r cont evs Hg Hcont. exists (add_events evs w).
    unfold bind, ptyMap_get. rewrite Hg, Hcont. repeat split. }
  repeat split; intros msg.
  1-3: intros Hg; eapply Hrun; [exact Hg | reflexivity].
  all: intros tup Hg; eapply Hrun; [exact Hg | reflexivity].
Qed.

Lemma handlers_unknown_and_known_witness :
  (∃ w',
     PtyManager.handlePtyInput {| PtyInput.id := 9; PtyInput.data := "ls" |} three_sessions
     = (Returned tt, w') ∧
     only_called
       [EvLog Warn
          "handlePtyInput() WARNING: Input arrived for a terminal which doesn't exist."]
       three_sessions w') ∧
  (∃ w',
     PtyManager.handlePtyResize
       {| PtyResize.id := 2; PtyResize.columns := 132; PtyResize.rows := 43 |}
       three_sessions
     = (Returned tt, w') ∧
     only_called [EvResize 1%nat 132 43] three_sessions w').
Proof.
  pose proof (handlers_unknown_and_known three_sessions) as (Hin & _ & _ & _ & _ & Hre).
  split.
  - apply (Hin {| PtyInput.id := 9; PtyInput.data := "ls" |}).
    vm_compute. reflexivity.
  - apply (Hre {| PtyResize.id := 2; PtyResize.columns := 132; PtyResize.rows := 43 |}
             {| windowId := 8; ptyTerm := 1%nat;
                outputBufferSize := 0; outputPaused := true |}).
    vm_compute. reflexivity.
Defined.

(** ** Callbacks *)


Lemma fire_exit_wired H p sender id w :
  wired w p sender id →
  PtyManager.fire H p ExitEvent w = PtyManager.onExit_callback H sender id p w.
Proof.
  intros Hw. unfold PtyManager.fire. rewrite Hw. simpl. unfold bind, ret. simpl.
  destruct (PtyManager.onExit_callback H sender id p w) as [[[]|e] w']; reflexivity.
Qed.


(** C6, as the code has it. When the [Pty] of a session fires [onExit], the
    callback logs, sends a [PTY_CLOSE] envelope with the session's id over the
    connection unless the connection is destroyed (then nothing is sent),
    afterwards destroys the [Pty], and removes the id from the map: the id
    is no key of the map once the callback has run. *)
Theorem onExit_closes_session H p sender id w :
  wired w p sender id →
  ∃ w',
    PtyManager.fire H p ExitEvent w = (Returned tt, w') ∧
    new_events w w' =
      EvLog Debug "pty process exited." ::
      (if host_isDestroyed H (trace w ++ [EvLog Debug "pty process exited."]) sender
       then [] else [EvSend sender (PTY_CLOSE id)]) ++
      [EvDestroy p] ∧
    ptyMap w' = JsMap.delete (ptyMap w) id ∧
    JsMap.get (ptyMap w') id = None ∧
    ptyCounter w' = ptyCounter w ∧
    listeners w' = listeners w.
Proof.
  intros Hw. rewrite (fire_exit_wired H p sender id w Hw), onExit_callback_run.
  eexists. split; [reflexivity|]. simpl. split.
  - unfold new_events. simpl. apply drop_app_length.
  - split; [reflexivity|]. split; [apply JsMap_get_delete_same|]. split; reflexivity.
Qed.

Lemma onExit_closes_session_witness :
  ∃ w',
    PtyManager.fire good_host 1%nat ExitEvent three_sessions = (Returned tt, w') ∧
    new_events three_sessions w' =
      [EvLog Debug "pty process exited."; EvSend 8%nat (PTY_CLOSE 2); EvDestroy 1%nat] ∧
    JsMap.keys (ptyMap w') = [1; 3].
Proof.
  destruct (onExit_closes_session good_host 1%nat 8%nat 2 three_sessions)
    as (w' & Hrun & Hev & Hm & _).
  - vm_compute. reflexivity.
  - exists w'. split; [exact Hrun|]. split; [exact Hev|].
    rewrite Hm. vm_compute. reflexivity.
Defined.

(** C6 fails as stated: the session with id 1 is in the map and wired, its
    connection is destroyed, its [Pty] fires [onExit], and no envelope is
    sent. *)
Lemma onExit_no_envelope_when_destroyed :
  JsMap.get (ptyMap one_session_closed) 1
    = Some {| windowId := 7; ptyTerm := 0%nat;
              outputBufferSize := 0; outputPaused := true |} ∧
  PtyManager.listeners_of 0%nat (listeners one_session_closed)
    = [OnData 7%nat 1; OnExit 7%nat 1 0%nat; OnAvailableWriteBufferSizeChange 7%nat 1] ∧
  sent (new_events one_session_closed
          (snd (PtyManager.fire closed_host 0%nat ExitEvent one_session_closed))) = [].
Proof. repeat split; vm_compute; reflexivity. Qed.




(** ** The tuple of a new session *)




(** * More of the manager *)

(** ** What a call of [createPty] says to the host *)






(** ** Sessions over time *)



(** X3. In every state a manager can reach the map holds each id once, every
    id in it is at least 1 and at most [ptyCounter], and so the map never
    holds more sessions than ids were handed out. *)
Theorem reachable_sessions_bounded H w :
  reachable H w →
  NoDup (JsMap.keys (ptyMap w)) ∧
  Forall (fun id => 0 < id ≤ ptyCounter w) (JsMap.keys (ptyMap w)) ∧
  Z.of_nat (length (ptyMap w)) ≤ ptyCounter w.
Proof.
  intros Hreach. destruct (reachable_inv H w Hreach) as (Hwf & Hc & Hk).
  split; [exact Hwf|]. split; [exact Hk|].
  assert (Hsub : JsMap.keys (ptyMap w) ⊆+ seqZ 1 (ptyCounter w)).
  { apply NoDup_submseteq; [exact Hwf|]. intros k Hin.
    rewrite Forall_forall in Hk. specialize (Hk k Hin). apply elem_of_seqZ. lia. }
  apply submseteq_length in Hsub. rewrite length_seqZ in Hsub.
  unfold JsMap.keys in Hsub. rewrite length_map in Hsub. lia.
Qed.

Lemma reachable_sessions_bounded_witness :
  Z.of_nat (length (ptyMap three_sessions)) ≤ ptyCounter three_sessions.
Proof.
  apply (reachable_sessions_bounded good_host three_sessions).
  exists three_sessions_calls. unfold three_sessions. reflexivity.
Defined.

Lemma old_ids_shrink_closed w0 :
  shrink_closed (fun w' =>
    ptyCounter w0 ≤ ptyCounter w' ∧
    ∀ id tup, id ≤ ptyCounter w0 →
      JsMap.get (ptyMap w') id = Some tup → JsMap.get (ptyMap w0) id = Some tup).
Proof.
  split.
  - intros e w Hw. exact Hw.
  - intros k w [Hc Hold]. split; [exact Hc|]. intros id tup Hid. simpl.
    rewrite JsMap_get_delete. destruct (k =? id); [discriminate|]. apply Hold, Hid.
Qed.

Lemma old_ids_createPty H w0 sender file args env cols rows fromPtyId :
  preserves (fun w' =>
    ptyCounter w0 ≤ ptyCounter w' ∧
    ∀ id tup, id ≤ ptyCounter w0 →
      JsMap.get (ptyMap w') id = Some tup → JsMap.get (ptyMap w0) id = Some tup)
    (PtyManager.createPty H sender file args env cols rows fromPtyId).
Proof.
  intros w [Hc Hold].
  destruct (createPty_cases H sender file args env cols rows fromPtyId w)
    as (logs & cwd & _ & _ & Hrun).
  cbv zeta in Hrun. rewrite Hrun. clear Hrun.
  destruct (host_spawn H (trace w ++ logs) file args _) as [e|p];
    [|destruct (host_windowId H _ sender) as [wid|]]; simpl.
  - split; assumption.
  - split; [lia|]. intros id tup Hid. rewrite JsMap_get_set.
    destruct (Z.eqb_spec (ptyCounter w + 1) id) as [<-|_]; [lia|]. apply Hold, Hid.
  - split; [lia|]. exact Hold.
Qed.

(** X4. Ids are never reused and tuples never change: after any sequence of
    calls, an id the counter had already passed is in the map only if it was
    there before, and then with the tuple it had. *)
Theorem session_ids_never_reused H cs w id tup :
  id ≤ ptyCounter w →
  JsMap.get (ptyMap (snd (PtyManager.run_calls H cs w))) id = Some tup →
  JsMap.get (ptyMap w) id = Some tup.
Proof.
  intros Hid Hg.
  pose proof (run_calls_preserves H _ cs w (old_ids_shrink_closed w)
                (old_ids_createPty H w)) as Hp.
  destruct Hp as [_ Hold]; [split; [lia|auto]|]. exact (Hold id tup Hid Hg).
Qed.

Lemma session_ids_never_reused_witness :
  JsMap.get (ptyMap three_sessions) 2
  = Some {| windowId := 8; ptyTerm := 1%nat; outputBufferSize := 0; outputPaused := true |}.
Proof.
  apply (session_ids_never_reused good_host
           [PtyManager.CallCleanUpPtyWindow 7;
            PtyManager.CallCreatePty 7%nat "/bin/sh" [] ∅ 80 24 None]
           three_sessions 2).
  - vm_compute. discriminate.
  - vm_compute. reflexivity.
Defined.



(** ** Calls that cannot fail *)





(** ** Close requests *)

(** X6. [handlePtyCloseRequest] for an id the map does not hold logs one
    warning (the window's copy of the method logs the same text at debug
    level) and does nothing else; for an id the map holds, both do what
    [closePty] does: one [destroy] on that session's [Pty], the id removed,
    every other session left as it was. *)
Theorem handlePtyCloseRequest_spec msg w :
  (JsMap.get (ptyMap w) (PtyCloseRequest.id msg) = None →
   ∃ w1 w2,
     PtyManager.handlePtyCloseRequest msg w = (Returned tt, w1) ∧
     only_called
       [EvLog Warn
          "handlePtyCloseRequest() WARNING: Input arrived for a terminal which doesn't exist."]
       w w1 ∧
     TerminalWindow.handlePtyCloseRequest msg w = (Returned tt, w2) ∧
     only_called
       [EvLog Debug
          "handlePtyCloseRequest() WARNING: Input arrived for a terminal which doesn't exist."]
       w w2) ∧
  (∀ tup,
     JsMap.get (ptyMap w) (PtyCloseRequest.id msg) = Some tup →
     ∃ w',
       PtyManager.handlePtyCloseRequest msg w = (Returned tt, w') ∧
       TerminalWindow.handlePtyCloseRequest msg w = (Returned tt, w') ∧
       PtyManager.closePty (PtyCloseRequest.id msg) w = (Returned tt, w') ∧
       new_events w w' = [EvDestroy (ptyTerm tup)] ∧
       JsMap.get (ptyMap w') (PtyCloseRequest.id msg) = None ∧
       (∀ k, k ≠ PtyCloseRequest.id msg →
             JsMap.get (ptyMap w') k = JsMap.get (ptyMap w) k) ∧
       ptyCounter w' = ptyCounter w ∧
       listeners w' = listeners w).
Proof.
  split.
  - intros Hg. eexists. eexists.
    unfold PtyManager.handlePtyCloseRequest, TerminalWindow.handlePtyCloseRequest,
      bind, ptyMap_get. rewrite Hg. repeat split.
  - intros tup Hg.
    assert (Hm : PtyManager.handlePtyCloseRequest msg w
                 = PtyManager.closePty (PtyCloseRequest.id msg) w).
    { unfold PtyManager.handlePtyCloseRequest, bind at 1, ptyMap_get at 1.
      rewrite Hg. reflexivity. }
    assert (Ht : TerminalWindow.handlePtyCloseRequest msg w
                 = PtyManager.closePty (PtyCloseRequest.id msg) w).
    { unfold TerminalWindow.handlePtyCloseRequest, bind at 1, ptyMap_get at 1.
      rewrite Hg. reflexivity. }
    rewrite Hm, Ht, (closePty_present _ _ _ Hg). eexists.
    repeat split; simpl.
    + unfold new_events. simpl. apply drop_app_length.
    + apply JsMap_get_delete_same.
    + intros k Hk. rewrite JsMap_get_delete.
      destruct (Z.eqb_spec (PtyCloseRequest.id msg) k); [congruence|reflexivity].
Qed.

Lemma handlePtyCloseRequest_spec_witness :
  ∃ w',
    PtyManager.handlePtyCloseRequest {| PtyCloseRequest.id := 2 |} three_sessions
      = (Returned tt, w') ∧
    new_events three_sessions w' = [EvDestroy 1%nat] ∧
    JsMap.keys (ptyMap w') = [1; 3].
Proof.
  destruct (proj2 (handlePtyCloseRequest_spec {| PtyCloseRequest.id := 2 |} three_sessions)
              {| windowId := 8; ptyTerm := 1%nat;
                 outputBufferSize := 0; outputPaused := true |})
    as (w' & Hrun & _ & Hclose & Hev & _).
  - vm_compute. reflexivity.
  - exists w'. split; [exact Hrun|]. split; [exact Hev|].
    assert (Hw' : w' = snd (PtyManager.closePty 2 three_sessions)).
    { simpl in Hclose. rewrite Hclose. reflexivity. }
    rewrite Hw'. vm_compute. reflexivity.
Defined.

(** ** The other callbacks *)

(** X7. A change of the write buffer of a session's [Pty] is forwarded as
    one [PTY_INPUT_BUFFER_SIZE_CHANGE] envelope with the session's id, the
    total size and the delta. Unlike the data and exit callbacks this one
    does not ask whether the connection is destroyed: the envelope is sent
    whatever [isDestroyed()] would answer. *)
Theorem buffer_size_change_forwarded H p sender id change w :
  wired w p sender id →
  PtyManager.fire H p (AvailableWriteBufferSizeChangeEvent change) w =
    (Returned tt,
     add_events
       [EvSend sender
          (PTY_INPUT_BUFFER_SIZE_CHANGE id (totalBufferSize change) (availableDelta change))]
       w).
Proof.
  intros Hw. unfold PtyManager.fire. rewrite Hw. reflexivity.
Qed.

Lemma buffer_size_change_forwarded_witness :
  host_isDestroyed closed_host (trace one_session_closed) 7%nat = true ∧
  sent (new_events one_session_closed
          (snd (PtyManager.fire closed_host 0%nat
                  (AvailableWriteBufferSizeChangeEvent
                     {| totalBufferSize := 4096; availableDelta := -12 |})
                  one_session_closed)))
  = [(7%nat, PTY_INPUT_BUFFER_SIZE_CHANGE 1 4096 (-12))].
Proof.
  split; [reflexivity|].
  rewrite (buffer_size_change_forwarded closed_host 0%nat 7%nat 1).
  - simpl snd. rewrite new_events_add. reflexivity.
  - vm_compute. reflexivity.
Defined.

(** X9. When a session is closed with [closePty] and its [Pty] reports the
    exit afterwards, the exit callback still runs: the [PTY_CLOSE] envelope
    is sent (unless the connection is destroyed) and [destroy] is called on
    the same [Pty] a second time. *)
Theorem exit_after_closePty H p sender id tup w :
  wired w p sender id →
  JsMap.get (ptyMap w) id = Some tup →
  ptyTerm tup = p →
  ∃ w1 w2,
    PtyManager.closePty id w = (Returned tt, w1) ∧
    PtyManager.fire H p ExitEvent w1 = (Returned tt, w2) ∧
    new_events w w2 =
      [EvDestroy p; EvLog Debug "pty process exited."] ++
      (if host_isDestroyed H
            (trace w ++ [EvDestroy p; EvLog Debug "pty process exited."]) sender
       then [] else [EvSend sender (PTY_CLOSE id)]) ++
      [EvDestroy p] ∧
    destroy_calls (new_events w w2) = [p; p] ∧
    ptyMap w2 = JsMap.delete (ptyMap w) id.
Proof.
  intros Hw Hg <-. eexists. eexists.
  split; [apply (closePty_present _ _ _ Hg)|].
  assert (Hw1 : wired (set_ptyMap (JsMap.delete (ptyMap w) id)
                         (add_events [EvDestroy (ptyTerm tup)] w))
                  (ptyTerm tup) sender id) by exact Hw.
  rewrite (fire_exit_wired H _ _ _ _ Hw1), onExit_callback_run.
  split; [reflexivity|]. simpl.
  assert (Hev : new_events w
    (set_ptyMap
       (JsMap.delete (JsMap.delete (ptyMap w) id) id)
       (add_events
          (EvLog Debug "pty process exited."
           :: (if host_isDestroyed H
                    ((trace w ++ [EvDestroy (ptyTerm tup)]) ++
                     [EvLog Debug "pty process exited."]) sender
               then [] else [EvSend sender (PTY_CLOSE id)]) ++
              [EvDestroy (ptyTerm tup)])
          (set_ptyMap (JsMap.delete (ptyMap w) id)
             (add_events [EvDestroy (ptyTerm tup)] w))))
    = [EvDestroy (ptyTerm tup); EvLog Debug "pty process exited."] ++
      (if host_isDestroyed H
            (trace w ++ [EvDestroy (ptyTerm tup); EvLog Debug "pty process exited."]) sender
       then [] else [EvSend sender (PTY_CLOSE id)]) ++
      [EvDestroy (ptyTerm tup)]).
  { apply new_events_extends. simpl. rewrite <- !app_assoc. reflexivity. }
  split; [exact Hev|]. split.
  - rewrite Hev. clear Hev. destruct (host_isDestroyed H _ sender); reflexivity.
  - apply JsMap_delete_absent. apply JsMap_get_None, JsMap_get_delete_same.
Qed.

Lemma exit_after_closePty_witness :
  ∃ w1 w2,
    PtyManager.closePty 2 three_sessions = (Returned tt, w1) ∧
    PtyManager.fire good_host 1%nat ExitEvent w1 = (Returned tt, w2) ∧
    new_events three_sessions w2 =
      [EvDestroy 1%nat; EvLog Debug "pty process exited.";
       EvSend 8%nat (PTY_CLOSE 2); EvDestroy 1%nat].
Proof.
  destruct (exit_after_closePty good_host 1%nat 8%nat 2
              {| windowId := 8; ptyTerm := 1%nat;
                 outputBufferSize := 0; outputPaused := true |} three_sessions)
    as (w1 & w2 & Hc & Hf & Hev & _).
  - vm_compute. reflexivity.
  - vm_compute. reflexivity.
  - reflexivity.
  - exists w1, w2. split; [exact Hc|]. split; [exact Hf|]. exact Hev.
Defined.

(** ** Cleaning up twice *)

Lemma World_eq w w' :
  ptyMap w' = ptyMap w → ptyCounter w' = ptyCounter w →
  listeners w' = listeners w → trace w' = trace w → w' = w.
Proof. destruct w, w'. simpl. intros -> -> -> ->. reflexivity. Qed.

Lemma filter_owned_by_others windowId' (m : JsMap.t PtyTuple) :
  filter (owned_by windowId') (filter (fun kv => ¬ owned_by windowId' kv) m) = [].
Proof.
  rewrite list_filter_filter. induction m as [|kv m IH]; [reflexivity|].
  rewrite filter_cons. destruct (decide _) as [[? ?]|_]; [contradiction|exact IH].
Qed.

(** X10. [cleanUpPtyWindow] for the same window a second time finds nothing
    to do: it returns and leaves the state, trace included, as the first call
    left it. *)
Theorem cleanUpPtyWindow_twice windowId' w :
  JsMap.wf (ptyMap w) →
  ∃ w',
    PtyManager.cleanUpPtyWindow windowId' w = (Returned tt, w') ∧
    PtyManager.cleanUpPtyWindow windowId' w' = (Returned tt, w').
Proof.
  intros Hwf.
  destruct (cleanUpPtyWindow_loop windowId' (ptyMap w) [] w Hwf eq_refl)
    as (w' & Hrun & Hm & _). simpl in Hm.
  assert (Hwf' : JsMap.wf (ptyMap w')).
  { rewrite Hm. apply JsMap_wf_filter, Hwf. }
  destruct (cleanUpPtyWindow_loop windowId' (ptyMap w') [] w' Hwf' eq_refl)
    as (w'' & Hrun' & Hm' & Hc' & Hl' & Ht'). simpl in Hm'.
  assert (Hc1 : PtyManager.cleanUpPtyWindow windowId' w = (Returned tt, w')).
  { unfold PtyManager.cleanUpPtyWindow, bind at 1, ptyMap_keys. exact Hrun. }
  assert (Hc2 : PtyManager.cleanUpPtyWindow windowId' w' = (Returned tt, w'')).
  { unfold PtyManager.cleanUpPtyWindow, bind at 1, ptyMap_keys. exact Hrun'. }
  exists w'. split; [exact Hc1|]. rewrite Hc2. f_equal. apply World_eq; try assumption.
  - rewrite Hm', Hm. rewrite list_filter_filter. apply list_filter_iff. tauto.
  - rewrite Ht', Hm.
    rewrite filter_owned_by_others. simpl. apply app_nil_r.
Qed.

Lemma cleanUpPtyWindow_twice_witness :
  ∃ w',
    PtyManager.cleanUpPtyWindow 7 three_sessions = (Returned tt, w') ∧
    PtyManager.cleanUpPtyWindow 7 w' = (Returned tt, w').
Proof.
  apply (cleanUpPtyWindow_twice 7 three_sessions).
  vm_compute. repeat constructor; compute; intros Hin;
    repeat (apply elem_of_cons in Hin as [Hin|Hin]; [discriminate Hin|]);
    apply elem_of_nil in Hin; exact Hin.
Defined.

(** * The channel bridge *)

Section WebIpcFacts.
Context {MessageType Message : Type} `{EqDecision MessageType}.
Context (type : Message → MessageType).
Context (handler_calls : list (WebIpc.IpcEvent (Message:=Message)) → nat → Message →
                         list (WebIpc.Call (MessageType:=MessageType) (Message:=Message))).

Abbreviation State := (WebIpc.State (MessageType:=MessageType) (Message:=Message)).
Abbreviation handleAsyncIpc := (WebIpc.handleAsyncIpc type handler_calls).
Abbreviation call_handler := (WebIpc.call_handler handler_calls).

Lemma WebIpc_new_log_extends (s s' : State) evs :
  WebIpc.log s' = WebIpc.log s ++ evs → WebIpc.new_log s s' = evs.
Proof. unfold WebIpc.new_log. intros ->. apply drop_app_length. Qed.

Lemma WebIpc_foldl_resolve (msg : Message) (l : list (nat * MessageType)) (s : State) :
  foldl (fun s tup => WebIpc.add_log (WebIpc.Resolve (fst tup) msg) s) s l =
    {| WebIpc.promiseQueue := WebIpc.promiseQueue s;
       WebIpc.defaultHandlers := WebIpc.defaultHandlers s;
       WebIpc.promises := WebIpc.promises s;
       WebIpc.log := WebIpc.log s ++ map (fun tup => WebIpc.Resolve (fst tup) msg) l |}.
Proof.
  revert s. induction l as [|tup l IH]; intros s; simpl.
  - rewrite app_nil_r. destruct s; reflexivity.
  - rewrite IH. unfold WebIpc.add_log. simpl. rewrite <- app_assoc. reflexivity.
Qed.

(** Dispatch when a request of the message's kind is pending. *)
Lemma handleAsyncIpc_pending_run (msg : Message) (s : State) p :
  (p, type msg) ∈ WebIpc.promiseQueue s →
  handleAsyncIpc msg s =
    {| WebIpc.promiseQueue :=
         filter (fun q => snd q ≠ type msg) (WebIpc.promiseQueue s);
       WebIpc.defaultHandlers := WebIpc.defaultHandlers s;
       WebIpc.promises := WebIpc.promises s;
       WebIpc.log :=
         WebIpc.log s ++
         map (fun q => WebIpc.Resolve (fst q) msg)
           (filter (fun q => snd q = type msg) (WebIpc.promiseQueue s)) |}.
Proof.
  intros Hin. unfold WebIpc.handleAsyncIpc.
  destruct (decide (length (filter (fun q => snd q = type msg) (WebIpc.promiseQueue s))
                    = 0%nat)) as [Hlen|_].
  - exfalso. apply length_zero_iff_nil in Hlen.
    eapply (filter_nil_not_elem_of _ _ (p, type msg)); [exact Hlen|reflexivity|exact Hin].
  - cbv zeta. rewrite WebIpc_foldl_resolve. reflexivity.
Qed.

(** X11. A message for which a request is pending resolves every pending
    promise of its kind with that one message, oldest first, and does
    nothing else: no default handler is called. Exactly those requests leave
    the queue, so none of that kind is pending afterwards; requests of other
    kinds stay, in their order. *)
Theorem handleAsyncIpc_resolves_pending (msg : Message) (s : State) p :
  (p, type msg) ∈ WebIpc.promiseQueue s →
  let s' := handleAsyncIpc msg s in
  WebIpc.new_log s s' =
    map (fun q => WebIpc.Resolve (fst q) msg)
      (filter (fun q => snd q = type msg) (WebIpc.promiseQueue s)) ∧
  WebIpc.promiseQueue s' = filter (fun q => snd q ≠ type msg) (WebIpc.promiseQueue s) ∧
  (∀ q, (q, type msg) ∉ WebIpc.promiseQueue s') ∧
  WebIpc.defaultHandlers s' = WebIpc.defaultHandlers s ∧
  WebIpc.promises s' = WebIpc.promises s.
Proof.
  intros Hin. cbv zeta. rewrite (handleAsyncIpc_pending_run msg s p Hin). simpl.
  split; [apply WebIpc_new_log_extends; reflexivity|]. split; [reflexivity|].
  split; [|split; reflexivity].
  intros q Hq. apply list_elem_of_filter in Hq as [Hne _]. apply Hne. reflexivity.
Qed.

Lemma WebIpc_filter_none (t : MessageType) (q : list (nat * MessageType)) :
  (∀ p, (p, t) ∉ q) →
  filter (fun x => snd x = t) q = [] ∧ filter (fun x => snd x ≠ t) q = q.
Proof.
  intros Hno. induction q as [|[p0 t0] q IH]; [split; reflexivity|].
  rewrite !filter_cons. simpl.
  assert (Hne : t0 ≠ t).
  { intros ->. apply (Hno p0). apply list_elem_of_here. }
  rewrite decide_False by exact Hne. rewrite decide_True by exact Hne.
  destruct IH as [-> ->]; [|split; reflexivity].
  intros p Hin. apply (Hno p). apply list_elem_of_further, Hin.
Qed.

(** X13. Request and reply: when no request of kind [t] is pending,
    [request msg t] followed by the arrival of a message of kind [t] sends
    [msg], resolves the promise that [request] returned with the reply, once,
    and leaves the queue as it was before the request. *)
Theorem request_reply_round_trip (msg reply : Message) (t : MessageType) (s : State) :
  (∀ p, (p, t) ∉ WebIpc.promiseQueue s) →
  type reply = t →
  let (promise, s1) := WebIpc.request msg t s in
  promise = WebIpc.promises s ∧
  handleAsyncIpc reply s1 =
    {| WebIpc.promiseQueue := WebIpc.promiseQueue s;
       WebIpc.defaultHandlers := WebIpc.defaultHandlers s;
       WebIpc.promises := S (WebIpc.promises s);
       WebIpc.log := WebIpc.log s ++ [WebIpc.Send msg; WebIpc.Resolve promise reply] |}.
Proof.
  intros Hno <-. unfold WebIpc.request. simpl. split; [reflexivity|].
  destruct (WebIpc_filter_none (type reply) _ Hno) as [Hm Hn].
  rewrite (handleAsyncIpc_pending_run reply _ (WebIpc.promises s)).
  - simpl. rewrite !filter_app, Hm, Hn, !filter_cons. simpl.
    rewrite (decide_True (P := type reply = type reply)) by reflexivity.
    rewrite (decide_False (P := type reply ≠ type reply))
      by (intros Hne; apply Hne; reflexivity).
    rewrite app_nil_r. simpl. rewrite <- app_assoc. reflexivity.
  - simpl. apply elem_of_app. right. apply list_elem_of_here.
Qed.
End WebIpcFacts.

Section WebIpcDispatch.
Context {MessageType Message : Type} `{EqDecision MessageType}.
Context (type : Message → MessageType).
Context (handler_calls : list (WebIpc.IpcEvent (Message:=Message)) → nat → Message →
                         list (WebIpc.Call (MessageType:=MessageType) (Message:=Message))).

Abbreviation State' := (WebIpc.State (MessageType:=MessageType) (Message:=Message)).

(** An exported function sends and appends; it resolves nothing and calls
    no handler. *)
Lemma run_exported_effect c (s : State') :
  ∃ evs,
    WebIpc.log (WebIpc.run_exported c s) = WebIpc.log s ++ evs ∧
    WebIpc.resolved evs = [] ∧ WebIpc.handled evs = [] ∧
    WebIpc.promiseQueue s `prefix_of` WebIpc.promiseQueue (WebIpc.run_exported c s) ∧
    WebIpc.defaultHandlers s `prefix_of` WebIpc.defaultHandlers (WebIpc.run_exported c s).
Proof.
  destruct c as [msg t|msg|t h]; simpl.
  - exists [WebIpc.Send msg]. repeat split; try reflexivity. apply prefix_app_r. reflexivity.
  - exists [WebIpc.Send msg]. repeat split; reflexivity.
  - exists []. rewrite app_nil_r. repeat split; try reflexivity.
    apply prefix_app_r. reflexivity.
Qed.

Lemma foldl_run_exported_effect cs (s : State') :
  ∃ evs,
    WebIpc.log (foldl (fun s c => WebIpc.run_exported c s) s cs) = WebIpc.log s ++ evs ∧
    WebIpc.resolved evs = [] ∧ WebIpc.handled evs = [] ∧
    WebIpc.promiseQueue s `prefix_of`
      WebIpc.promiseQueue (foldl (fun s c => WebIpc.run_exported c s) s cs) ∧
    WebIpc.defaultHandlers s `prefix_of`
      WebIpc.defaultHandlers (foldl (fun s c => WebIpc.run_exported c s) s cs).
Proof.
  revert s. induction cs as [|c cs IH]; intros s; simpl.
  - exists []. rewrite app_nil_r. repeat split; reflexivity.
  - destruct (run_exported_effect c s) as (evs & Hl & Hr & Hh & Hq & Hd).
    destruct (IH (WebIpc.run_exported c s)) as (evs' & Hl' & Hr' & Hh' & Hq' & Hd').
    exists (evs ++ evs'). rewrite Hl', Hl, <- app_assoc.
    unfold WebIpc.resolved, WebIpc.handled in *. rewrite !omap_app, Hr, Hr', Hh, Hh'.
    repeat split; try reflexivity; etrans; eassumption.
Qed.

Lemma call_handler_effect h msg (s : State') :
  ∃ evs,
    WebIpc.log (WebIpc.call_handler handler_calls h msg s) = WebIpc.log s ++ evs ∧
    WebIpc.resolved evs = [] ∧ WebIpc.handled evs = [(h, msg)] ∧
    WebIpc.promiseQueue s `prefix_of`
      WebIpc.promiseQueue (WebIpc.call_handler handler_calls h msg s) ∧
    WebIpc.defaultHandlers s `prefix_of`
      WebIpc.defaultHandlers (WebIpc.call_handler handler_calls h msg s).
Proof.
  unfold WebIpc.call_handler. cbv zeta.
  destruct (foldl_run_exported_effect
              (handler_calls (WebIpc.log (WebIpc.add_log (WebIpc.Handle h msg) s)) h msg)
              (WebIpc.add_log (WebIpc.Handle h msg) s)) as (evs & Hl & Hr & Hh & Hq & Hd).
  exists (WebIpc.Handle h msg :: evs). rewrite Hl. simpl. rewrite <- app_assoc.
  unfold WebIpc.resolved, WebIpc.handled in *. simpl. rewrite Hr, Hh.
  repeat split; assumption.
Qed.

Lemma foldl_call_handler_effect msg (hs : list (MessageType * nat)) (s : State') :
  ∃ evs,
    WebIpc.log (foldl (fun s tup => WebIpc.call_handler handler_calls (snd tup) msg s) s hs)
      = WebIpc.log s ++ evs ∧
    WebIpc.resolved evs = [] ∧
    WebIpc.handled evs = map (fun tup => (snd tup, msg)) hs ∧
    WebIpc.promiseQueue s `prefix_of`
      WebIpc.promiseQueue
        (foldl (fun s tup => WebIpc.call_handler handler_calls (snd tup) msg s) s hs) ∧
    WebIpc.defaultHandlers s `prefix_of`
      WebIpc.defaultHandlers
        (foldl (fun s tup => WebIpc.call_handler handler_calls (snd tup) msg s) s hs).
Proof.
  revert s. induction hs as [|[t h] hs IH]; intros s; simpl.
  - exists []. rewrite app_nil_r. repeat split; reflexivity.
  - destruct (call_handler_effect h msg s) as (evs & Hl & Hr & Hh & Hq & Hd).
    destruct (IH (WebIpc.call_handler handler_calls h msg s))
      as (evs' & Hl' & Hr' & Hh' & Hq' & Hd').
    exists (evs ++ evs'). rewrite Hl', Hl, <- app_assoc.
    unfold WebIpc.resolved, WebIpc.handled in *. rewrite !omap_app, Hr, Hr', Hh, Hh'.
    repeat split; try reflexivity; etrans; eassumption.
Qed.

(** X12. A message for which no request is pending goes to the default
    handlers registered for its kind when it arrives, each once, oldest
    first, and to no other handler; no promise is resolved, and nothing that
    was in the queue or among the handlers is removed. *)
Theorem handleAsyncIpc_default_handlers (msg : Message) (s : State') :
  (∀ p, (p, type msg) ∉ WebIpc.promiseQueue s) →
  let s' := WebIpc.handleAsyncIpc type handler_calls msg s in
  WebIpc.handled (WebIpc.new_log s s') =
    map (fun tup => (snd tup, msg))
      (filter (fun tup => fst tup = type msg) (WebIpc.defaultHandlers s)) ∧
  WebIpc.resolved (WebIpc.new_log s s') = [] ∧
  WebIpc.promiseQueue s `prefix_of` WebIpc.promiseQueue s' ∧
  WebIpc.defaultHandlers s `prefix_of` WebIpc.defaultHandlers s'.
Proof.
  intros Hno. cbv zeta. unfold WebIpc.handleAsyncIpc.
  destruct (WebIpc_filter_none (type msg) _ Hno) as [Hm Hn].
  rewrite Hm, Hn. simpl.
  destruct (foldl_call_handler_effect msg
              (filter (fun tup => fst tup = type msg) (WebIpc.defaultHandlers s))
              {| WebIpc.promiseQueue := WebIpc.promiseQueue s;
                 WebIpc.defaultHandlers := WebIpc.defaultHandlers s;
                 WebIpc.promises := WebIpc.promises s;
                 WebIpc.log := WebIpc.log s |}) as (evs & Hl & Hr & Hh & Hq & Hd).
  simpl in Hl, Hq, Hd. rewrite (WebIpc_new_log_extends _ _ evs Hl).
  repeat split; assumption.
Qed.

(** ** Each promise is resolved once *)

Lemma promises_distinct_log e (s : State') :
  WebIpc.resolved [e] = [] →
  WebIpc.promises_distinct s → WebIpc.promises_distinct (WebIpc.add_log e s).
Proof.
  intros He. unfold WebIpc.promises_distinct, WebIpc.add_log, WebIpc.resolved in *. simpl.
  rewrite omap_app, He, app_nil_r. auto.
Qed.

Lemma promises_distinct_exported c (s : State') :
  WebIpc.promises_distinct s → WebIpc.promises_distinct (WebIpc.run_exported c s).
Proof.
  destruct c as [msg t|msg|t h]; simpl.
  - intros Hs. apply (promises_distinct_log (WebIpc.Send msg)) in Hs; [|reflexivity].
    destruct Hs as [Hnd Hall]. unfold WebIpc.promises_distinct, WebIpc.send in *. simpl in *.
    rewrite map_app, app_assoc. simpl. split.
    + apply NoDup_app. split; [exact Hnd|]. split; [|apply NoDup_singleton].
      intros x Hx Hx'. apply list_elem_of_singleton in Hx'. subst x.
      rewrite Forall_forall in Hall. specialize (Hall _ Hx). lia.
    + apply Forall_app. split.
      * eapply Forall_impl; [exact Hall|]. simpl. intros x ?. lia.
      * apply Forall_singleton. lia.
  - apply promises_distinct_log. reflexivity.
  - intros Hs. exact Hs.
Qed.

Lemma promises_distinct_foldl_exported cs (s : State') :
  WebIpc.promises_distinct s →
  WebIpc.promises_distinct (foldl (fun s c => WebIpc.run_exported c s) s cs).
Proof.
  revert s. induction cs as [|c cs IH]; intros s Hs; simpl; [exact Hs|].
  apply IH, promises_distinct_exported, Hs.
Qed.

Lemma promises_distinct_handler h msg (s : State') :
  WebIpc.promises_distinct s →
  WebIpc.promises_distinct (WebIpc.call_handler handler_calls h msg s).
Proof.
  intros Hs. unfold WebIpc.call_handler. cbv zeta.
  apply (promises_distinct_log (WebIpc.Handle h msg)) in Hs; [|reflexivity].
  apply promises_distinct_foldl_exported, Hs.
Qed.

Lemma promises_distinct_handleAsyncIpc msg (s : State') :
  WebIpc.promises_distinct s →
  WebIpc.promises_distinct (WebIpc.handleAsyncIpc type handler_calls msg s).
Proof.
  intros [Hnd Hall]. unfold WebIpc.handleAsyncIpc. cbv zeta.
  rewrite WebIpc_foldl_resolve. simpl.
  assert (Hs2 : WebIpc.promises_distinct
    {| WebIpc.promiseQueue := filter (fun p => snd p ≠ type msg) (WebIpc.promiseQueue s);
       WebIpc.defaultHandlers := WebIpc.defaultHandlers s;
       WebIpc.promises := WebIpc.promises s;
       WebIpc.log :=
         WebIpc.log s ++
         map (fun tup => WebIpc.Resolve (fst tup) msg)
           (filter (fun p => snd p = type msg) (WebIpc.promiseQueue s)) |}).
  { unfold WebIpc.promises_distinct, WebIpc.resolved in *. simpl.
    rewrite omap_app, map_app.
    assert (Hres : map fst (omap (fun e : WebIpc.IpcEvent =>
                       match e with WebIpc.Resolve p m => Some (p, m) | _ => None end)
                     (map (fun tup : nat * MessageType => WebIpc.Resolve (fst tup) msg)
                        (filter (fun p => snd p = type msg) (WebIpc.promiseQueue s))))
                   = map fst (filter (fun p => snd p = type msg) (WebIpc.promiseQueue s))).
    { induction (filter _ (WebIpc.promiseQueue s)) as [|q l IH]; [reflexivity|].
      simpl. f_equal. exact IH. }
    rewrite Hres, <- app_assoc, <- map_app.
    assert (Hperm : filter (fun p => snd p = type msg) (WebIpc.promiseQueue s) ++
                    filter (fun p => snd p ≠ type msg) (WebIpc.promiseQueue s)
                    ≡ₚ WebIpc.promiseQueue s)
      by apply (filter_app_complement (fun p : nat * MessageType => snd p = type msg)).
    assert (Hperm' : map fst (WebIpc.resolved (WebIpc.log s)) ++
                     map fst (filter (fun p => snd p = type msg) (WebIpc.promiseQueue s) ++
                              filter (fun p => snd p ≠ type msg) (WebIpc.promiseQueue s))
                     ≡ₚ map fst (WebIpc.resolved (WebIpc.log s)) ++
                        map fst (WebIpc.promiseQueue s)).
    { apply Permutation_app_head, Permutation_map, Hperm. }
    unfold WebIpc.resolved in Hperm'. split.
    - rewrite Hperm'. exact Hnd.
    - rewrite Hperm'. exact Hall. }
  destruct (decide _) as [_|_]; [|exact Hs2].
  revert Hs2. generalize
    {| WebIpc.promiseQueue := filter (fun p => snd p ≠ type msg) (WebIpc.promiseQueue s);
       WebIpc.defaultHandlers := WebIpc.defaultHandlers s;
       WebIpc.promises := WebIpc.promises s;
       WebIpc.log :=
         WebIpc.log s ++
         map (fun tup => WebIpc.Resolve (fst tup) msg)
           (filter (fun p => snd p = type msg) (WebIpc.promiseQueue s)) |}.
  intros s2. simpl.
  generalize (filter (fun tup => fst tup = type msg) (WebIpc.defaultHandlers s)).
  intros hs. revert s2. induction hs as [|[t h] hs IH]; intros s2 Hs2; simpl; [exact Hs2|].
  apply IH, promises_distinct_handler, Hs2.
Qed.

(** X14. Whatever the render process calls and whatever arrives on the
    channel, no promise is resolved twice, and a promise that has been
    resolved is no longer in the queue. *)
Theorem promise_resolved_at_most_once sts :
  let s := WebIpc.run_steps type handler_calls sts WebIpc.start in
  NoDup (map fst (WebIpc.resolved (WebIpc.log s))) ∧
  (∀ p t, p ∈ map fst (WebIpc.resolved (WebIpc.log s)) → (p, t) ∉ WebIpc.promiseQueue s).
Proof.
  cbv zeta.
  assert (Hinv : WebIpc.promises_distinct
                   (WebIpc.run_steps type handler_calls sts WebIpc.start)).
  { unfold WebIpc.run_steps.
    assert (H0 : WebIpc.promises_distinct (WebIpc.start (MessageType:=MessageType)
                                             (Message:=Message))).
    { split; constructor. }
    revert H0. generalize (WebIpc.start (MessageType:=MessageType) (Message:=Message)).
    induction sts as [|[c|msg] sts IH]; intros s Hs; simpl; [exact Hs| |].
    - apply IH, promises_distinct_exported, Hs.
    - apply IH, promises_distinct_handleAsyncIpc, Hs. }
  destruct Hinv as [Hnd _]. apply NoDup_app in Hnd as (Hr & Hdisj & _).
  split; [exact Hr|]. intros p t Hp Hq. apply (Hdisj p Hp).
  apply (list_elem_of_fmap_2 fst) in Hq. exact Hq.
Qed.
End WebIpcDispatch.

Lemma handleAsyncIpc_resolves_pending_witness :
  WebIpc.new_log example_bridge
    (WebIpc.handleAsyncIpc example_type example_handler_calls (2%nat, "reply")
       example_bridge)
  = [WebIpc.Resolve 0%nat (2%nat, "reply"); WebIpc.Resolve 2%nat (2%nat, "reply")] ∧
  WebIpc.promiseQueue
    (WebIpc.handleAsyncIpc example_type example_handler_calls (2%nat, "reply")
       example_bridge)
  = [(1%nat, 4%nat)].
Proof.
  destruct (handleAsyncIpc_resolves_pending example_type example_handler_calls
              (2%nat, "reply") example_bridge 0%nat) as (Hlog & Hq & _).
  - vm_compute. apply list_elem_of_here.
  - rewrite Hlog, Hq. split; vm_compute; reflexivity.
Defined.

Lemma handleAsyncIpc_default_handlers_witness :
  WebIpc.handled
    (WebIpc.new_log example_bridge
       (WebIpc.handleAsyncIpc example_type example_handler_calls (3%nat, "push")
          example_bridge))
  = [(5%nat, (3%nat, "push")); (6%nat, (3%nat, "push"))].
Proof.
  destruct (handleAsyncIpc_default_handlers example_type example_handler_calls
              (3%nat, "push") example_bridge) as (Hh & _).
  - intros p Hin. vm_compute in Hin.
    repeat (apply elem_of_cons in Hin as [Hin|Hin]; [discriminate Hin|]).
    apply elem_of_nil in Hin. exact Hin.
  - rewrite Hh. vm_compute. reflexivity.
Defined.

Lemma request_reply_round_trip_witness :
  WebIpc.handleAsyncIpc example_type example_handler_calls (7%nat, "pong")
    (snd (WebIpc.request (1%nat, "ping") 7%nat example_bridge))
  = {| WebIpc.promiseQueue := WebIpc.promiseQueue example_bridge;
       WebIpc.defaultHandlers := WebIpc.defaultHandlers example_bridge;
       WebIpc.promises := 4%nat;
       WebIpc.log :=
         WebIpc.log example_bridge ++
         [WebIpc.Send (1%nat, "ping"); WebIpc.Resolve 3%nat (7%nat, "pong")] |}.
Proof.
  pose proof (request_reply_round_trip example_type example_handler_calls
                (1%nat, "ping") (7%nat, "pong") 7%nat example_bridge) as Hrt.
  destruct (WebIpc.request (1%nat, "ping") 7%nat example_bridge) as [promise s1] eqn:Hreq.
  destruct Hrt as [Hp Hrun].
  - intros p Hin. vm_compute in Hin.
    repeat (apply elem_of_cons in Hin as [Hin|Hin]; [discriminate Hin|]).
    apply elem_of_nil in Hin. exact Hin.
  - reflexivity.
  - simpl snd. rewrite Hrun, Hp. reflexivity.
Defined.

(** * The render process and the manager together *)

Lemma createPty_fromPtyId_falsy H sender file args env cols rows id :
  truthy_number id = false →
  PtyManager.createPty H sender file args env cols rows (Some id)
  = PtyManager.createPty H sender file args env cols rows None.
Proof.
  intros Hid. unfold PtyManager.createPty, PtyManager.createPty_options.
  rewrite Hid. reflexivity.
Qed.

(** X15. The [PTY_CREATE] message [requestPtyCreate] builds makes
    [handlePtyCreate] create the session exactly as [createPty] would with
    the caller's own arguments (no [args] standing for none): that the render
    process leaves a falsy [fromPtyId] out of the message changes nothing,
    because [createPty] treats [0] like an absent id. *)
Theorem requestPtyCreate_handled H sender command args columns rows env fromPtyId w :
  PtyManager.handlePtyCreate H sender
    (WebIpc.requestPtyCreate_message command args columns rows env fromPtyId) w
  = bind
      (PtyManager.createPty H sender command (default [] args) env columns rows fromPtyId)
      (fun id => ret (PTY_CREATED id)) w.
Proof.
  unfold PtyManager.handlePtyCreate, WebIpc.requestPtyCreate_message. simpl.
  assert (Hargs : match args with Some a => a | None => [] end = default [] args)
    by (destruct args; reflexivity).
  rewrite Hargs. destruct fromPtyId as [id|]; [|reflexivity].
  destruct (truthy_number id) eqn:Hid; [reflexivity|].
  rewrite (createPty_fromPtyId_falsy H _ _ _ _ _ _ id Hid). reflexivity.
Qed.



(** ** Tabs *)

(** X17. When the tab widget has tabs, [_shiftTab] selects an index of one
    of them, whatever index was selected and whatever the direction: a step
    past either end goes to the other end. Without tabs it does nothing. *)
Theorem shiftTab_in_range len i direction :
  0 ≤ len →
  (len = 0 → MainWebUi._shiftTab len i direction = None) ∧
  (0 < len → ∃ j, MainWebUi._shiftTab len i direction = Some j ∧ 0 ≤ j < len).
Proof.
  intros Hlen. unfold MainWebUi._shiftTab. split.
  - intros ->. reflexivity.
  - intros Hpos. destruct (Z.eqb_spec len 0) as [->|_]; [lia|]. cbv zeta.
    eexists. split; [reflexivity|].
    destruct (Z.ltb_spec (i + direction) 0); [lia|].
    unfold Z.geb. destruct (Z.compare_spec (i + direction) len); lia.
Qed.

Lemma shiftTab_in_range_witness :
  ∃ j, MainWebUi._shiftTab 3 2 1 = Some j ∧ 0 ≤ j < 3.
Proof.
  apply (proj2 (shiftTab_in_range 3 2 1 ltac:(lia))). lia.
Defined.

Lemma shiftTab_next len i :
  0 ≤ i < len →
  MainWebUi._shiftTab len i 1 = Some (if i + 1 =? len then 0 else i + 1).
Proof.
  intros Hi. unfold MainWebUi._shiftTab.
  destruct (Z.eqb_spec len 0) as [->|_]; [lia|]. cbv zeta. f_equal.
  destruct (Z.ltb_spec (i + 1) 0); [lia|]. rewrite Z.geb_leb.
  destruct (Z.leb_spec len (i + 1)), (Z.eqb_spec (i + 1) len); lia.
Qed.

Lemma shiftTab_previous len i :
  0 ≤ i < len →
  MainWebUi._shiftTab len i (-1) = Some (if i =? 0 then len - 1 else i - 1).
Proof.
  intros Hi. unfold MainWebUi._shiftTab.
  destruct (Z.eqb_spec len 0) as [->|_]; [lia|]. cbv zeta. f_equal.
  rewrite Z.geb_leb.
  destruct (Z.ltb_spec (i + -1) 0), (Z.eqb_spec i 0); try lia.
  destruct (Z.leb_spec len (i + -1)); lia.
Qed.

(** X18. From a selected tab, one step forward and one step back (or back
    and then forward) returns to that tab, also across the ends. *)
Theorem shiftTab_back_and_forth len i :
  0 ≤ i < len →
  (MainWebUi._shiftTab len i 1 ≫= fun j => MainWebUi._shiftTab len j (-1)) = Some i ∧
  (MainWebUi._shiftTab len i (-1) ≫= fun j => MainWebUi._shiftTab len j 1) = Some i.
Proof.
  intros Hi. rewrite (shiftTab_next len i Hi), (shiftTab_previous len i Hi). simpl. split.
  - destruct (Z.eqb_spec (i + 1) len) as [Hend|Hmid].
    + rewrite shiftTab_previous by lia. simpl. f_equal. lia.
    + rewrite shiftTab_previous by lia. destruct (Z.eqb_spec (i + 1) 0); [lia|].
      f_equal. lia.
  - destruct (Z.eqb_spec i 0) as [->|Hpos].
    + rewrite shiftTab_next by lia. destruct (Z.eqb_spec (len - 1 + 1) len); [|lia].
      reflexivity.
    + rewrite shiftTab_next by lia. destruct (Z.eqb_spec (i - 1 + 1) len); [lia|].
      f_equal. lia.
Qed.

Lemma shiftTab_back_and_forth_witness :
  (MainWebUi._shiftTab 3 2 1 ≫= fun j => MainWebUi._shiftTab 3 j (-1)) = Some 2.
Proof.
  apply (proj1 (shiftTab_back_and_forth 3 2 ltac:(lia))).
Defined.

(** X19. [_applyDraggable] sets [draggable] to [true] on every child that
    is an element, keeping its other attributes and its own children, and
    leaves the other children alone; it adds and removes no child, and doing
    it again changes nothing. *)
Theorem applyDraggable_spec childNodes :
  Tab._applyDraggable (Tab._applyDraggable childNodes) = Tab._applyDraggable childNodes ∧
  Forall2
    (fun kid kid' =>
       match kid with
       | Tab.HTMLElement attributes kids =>
           kid' = Tab.HTMLElement (<["draggable" := "true"]> attributes) kids
       | Tab.OtherNode _ => kid' = kid
       end)
    childNodes (Tab._applyDraggable childNodes).
Proof.
  unfold Tab._applyDraggable. split.
  - rewrite map_map. apply map_ext. intros [attributes kids|text]; simpl; [|reflexivity].
    rewrite insert_insert_eq. reflexivity.
  - induction childNodes as [|[attributes kids|text] l IH]; simpl; constructor;
      try reflexivity; exact IH.
Qed.
